(** * Livelox: fleet-health checks of an auto-scaling group

    A shallow embedding of [livelox.py].  The script asks the cloud API for
    the instances, scheduled actions and scaling activities of one
    auto-scaling group (ASG), runs two test procedures over them and prints
    what it finds.

    Modelling choices, all read off the source:
    - the dictionaries returned by the API are records, one field per key the
      script reads; a key whose presence the script tests with [in] is an
      [option] field;
    - [datetime] values are integers counting microseconds, [timedelta]
      values are integer microsecond differences, so [a - b] and [a > b] are
      the ones of [Z];
    - [print] appends one line to the standard output; a line is the list of
      the values given to [print];
    - a procedure either runs to its end, leaves through [return], or raises;
    - [asg_name], [datetime] and [timedelta] are free names of the script
      (never assigned nor imported): the ASG name and every reading of the
      clock are parameters here. *)

From Stdlib Require Import Ascii.
From stdpp Require Import gmap strings list pretty.

(** ** Data read from the API *)

Record SecurityGroup := { GroupId : string }.

Record Instance := {
  InstanceId : string;
  LifecycleState : string;
  AvailabilityZone : string;
  SecurityGroups : list SecurityGroup;
  ImageId : string;
  VpcId : string;
  LaunchTime : Z
}.

(** An ASG descriptor.  ['Instances' in asg] is tested by the script, so the
    field is optional; [DesiredCapacity] is the configured target size the
    API sends along, which the script never reads. *)
Record AutoScalingGroup := {
  DesiredCapacity : Z;
  Instances : option (list Instance)
}.

Record GroupsResponse := {
  AutoScalingGroups : option (list AutoScalingGroup)
}.

Record ScheduledAction := {
  ScheduledActionName : string;
  StartTime : Z
}.

Record ScheduledActionsResponse := {
  ScheduledUpdateGroupActions : list ScheduledAction
}.

Record Activity := {
  StatusCode : string;
  Description : string
}.

Record ActivitiesResponse := {
  Activities : list Activity
}.

(** [boto3.client('autoscaling')]: the three requests the script sends. *)
Record Client := {
  describe_auto_scaling_groups : list string → GroupsResponse;
  describe_scheduled_actions : string → ScheduledActionsResponse;
  describe_scaling_activities : string → Z → Z → ActivitiesResponse
}.

(** ** Output and control *)

Inductive pyval :=
  | VStr (s : string)
  | VInt (n : Z)
  | VDatetime (t : Z)
  | VTimedelta (d : Z).

(** One call of [print]: its arguments, in order. *)
Definition line := list pyval.

Inductive exn := IndexError | TypeError.

Inductive res (A : Type) :=
  | Ok (a : A)
  | Return
  | Raise (e : exn).
Arguments Ok {A} a.
Arguments Return {A}.
Arguments Raise {A} e.

(** A computation: the lines printed so far and how it went on. *)
Record M (A : Type) := Run { stdout : list line; outcome : res A }.
Arguments Run {A} stdout outcome.
Arguments stdout {A} m.
Arguments outcome {A} m.

Global Instance M_ret : MRet M := λ A a, Run [] (Ok a).

Global Instance M_bind : MBind M := λ A B f m,
  match outcome m with
  | Ok a => Run (stdout m ++ stdout (f a)) (outcome (f a))
  | Return => Run (stdout m) Return
  | Raise e => Run (stdout m) (Raise e)
  end.

Definition print (l : line) : M unit := Run [l] (Ok tt).
Definition return_ {A} : M A := Run [] Return.
Definition raise {A} (e : exn) : M A := Run [] (Raise e).

(** Calling a procedure: its [return] ends the procedure, not the caller. *)
Definition call (body : M unit) : M unit :=
  match outcome body with
  | Return => Run (stdout body) (Ok tt)
  | _ => body
  end.

(** [for x in xs: body] *)
Fixpoint for_each {A} (xs : list A) (body : A → M unit) : M unit :=
  match xs with
  | [] => mret tt
  | x :: xs' => body x ;; for_each xs' body
  end.

(** [xs[0]] *)
Definition index0 {A} (xs : list A) : M A :=
  match xs with
  | [] => raise IndexError
  | x :: _ => mret x
  end.

(** [sum(1 for x in xs if cond(x))] *)
Definition sum_ones {A} (cond : A → bool) (xs : list A) : Z :=
  fold_left (λ acc x, if cond x then (acc + 1)%Z else acc) xs 0%Z.

(** [len(xs)] *)
Definition len {A} (xs : list A) : Z := Z.of_nat (length xs).

(** [min(x :: xs, key=key)]: the first element whose key is minimal. *)
Definition min_by {A} (key : A → Z) (x : A) (xs : list A) : A :=
  fold_left (λ best y, if bool_decide (key y < key best)%Z then y else best) xs x.

(** ** [str] of a [timedelta]

    Python keeps a [timedelta] as days, seconds in [0, 86400) and
    microseconds in [0, 10^6), the days carrying the sign, and prints
    [D day(s), H:MM:SS.ffffff], leaving out the days when they are 0 and the
    fraction when it is 0. *)

Definition day_us : Z := 86400000000.

Fixpoint zeros (k : nat) : string :=
  match k with
  | O => EmptyString
  | S k' => String "0" (zeros k')
  end.

(** ["%0<w>d" % n], for [n >= 0] *)
Definition zfill (w : nat) (n : Z) : string :=
  let s := pretty n in
  zeros (w - String.length s) +:+ s.

Definition timedelta_str (d : Z) : string :=
  let days := (d `div` day_us)%Z in
  let seconds := ((d `mod` day_us) `div` 1000000)%Z in
  let microseconds := ((d `mod` day_us) `mod` 1000000)%Z in
  let mm := (seconds `div` 60)%Z in
  let ss := (seconds `mod` 60)%Z in
  let hh := (mm `div` 60)%Z in
  let mm := (mm `mod` 60)%Z in
  let s := pretty hh +:+ ":" +:+ zfill 2 mm +:+ ":" +:+ zfill 2 ss in
  let s :=
    if bool_decide (days ≠ 0%Z)
    then pretty days +:+ " day"
         +:+ (if bool_decide (Z.abs days ≠ 1%Z) then "s" else "") +:+ ", " +:+ s
    else s in
  if bool_decide (microseconds ≠ 0%Z)
  then s +:+ "." +:+ zfill 6 microseconds
  else s.

(** [s.split('.')[0]] *)
Fixpoint split_dot_head (s : string) : string :=
  match s with
  | EmptyString => EmptyString
  | String c s' =>
      if bool_decide (c = "."%char) then EmptyString else String c (split_dot_head s')
  end.

(** ** [get_asg_instances] *)

Definition get_asg_instances (aws : Client) (asg_name : string) : list Instance :=
  let response := describe_auto_scaling_groups aws [asg_name] in
  match AutoScalingGroups response with
  | Some (asg :: _) =>
      match Instances asg with
      | Some instances => instances
      | None => []
      end
  | _ => []
  end.

(** ** [verify_testcase_a] *)

Definition msg_capacity : line :=
  [VStr "Testcase A - Failed: ASG desired running count does not match the running instances count."].
Definition msg_az_spread : line :=
  [VStr "Testcase A - Failed: Instances are not distributed across multiple availability zones."].
Definition msg_drift : line :=
  [VStr "Testcase A - Failed: SecurityGroup, ImageID, or VPCID differs among instances."].
Definition msg_passed : line := [VStr "Testcase A - Passed"].

Definition in_service (instance : Instance) : bool :=
  bool_decide (LifecycleState instance = "InService").

(** Lines 49-51: the body of the comparison loop. *)
Definition homogeneity_body (security_group image_id vpc_id : string)
    (instance : Instance) : M unit :=
  sg ← index0 (SecurityGroups instance);
  if bool_decide (GroupId sg ≠ security_group)
     || bool_decide (ImageId instance ≠ image_id)
     || bool_decide (VpcId instance ≠ vpc_id)
  then print msg_drift ;; return_
  else mret tt.

(** Lines 44-51: the comparison of every instance with the first one. *)
Definition homogeneity_check (instances : list Instance) : M unit :=
  first ← index0 instances;
  sg0 ← index0 (SecurityGroups first);
  let security_group := GroupId sg0 in
  let image_id := ImageId first in
  let vpc_id := VpcId first in
  for_each instances (homogeneity_body security_group image_id vpc_id).

(** Lines 57-62: one turn of the uptime loop on the pair
    [(longest_uptime, longest_running_instance)]. *)
Definition uptime_step (current_time : Z) (acc : Z * option Instance)
    (instance : Instance) : Z * option Instance :=
  let launch_time := LaunchTime instance in
  let uptime := (current_time - launch_time)%Z in
  if bool_decide (uptime > acc.1)%Z then (uptime, Some instance) else acc.

(** Lines 55-62: [timedelta()] is the zero duration. *)
Definition uptime_loop (current_time : Z) (instances : list Instance)
    : Z * option Instance :=
  fold_left (uptime_step current_time) instances (0%Z, None).

(** Lines 53-66: the uptime ranking and the report of a passed test. *)
Definition uptime_report (now : Z) (instances : list Instance) : M unit :=
  let current_time := now in
  let '(longest_uptime, longest_running_instance) :=
    uptime_loop current_time instances in
  print msg_passed ;;
  match longest_running_instance with
  | None => raise TypeError
  | Some instance =>
      print [VStr "Longest running instance ID:"; VStr (InstanceId instance)] ;;
      print [VStr "Longest running instance uptime:"; VTimedelta longest_uptime]
  end.

Definition verify_testcase_a (aws : Client) (asg_name : string) (now : Z) : M unit :=
  call (
    let instances := get_asg_instances aws asg_name in
    let asg_desired_count := len instances in
    let asg_running_count := sum_ones in_service instances in
    if bool_decide (asg_desired_count ≠ asg_running_count)
    then print msg_capacity ;; return_
    else
    let availability_zones : gset string :=
      list_to_set (AvailabilityZone <$> instances) in
    if bool_decide (size availability_zones < 2)
    then print msg_az_spread ;; return_
    else
    homogeneity_check instances ;;
    uptime_report now instances).

(** ** [verify_testcase_b] *)

Definition msg_no_actions : line := [VStr "No scheduled actions found for the ASG."].

Definition is_launched (activity : Activity) : bool :=
  bool_decide (StatusCode activity = "Successful")
  && String.prefix "Launching a new EC2 instance" (Description activity).

Definition is_terminated (activity : Activity) : bool :=
  bool_decide (StatusCode activity = "Successful")
  && String.prefix "Terminating EC2 instance" (Description activity).

(** Lines 81-90: the report on the scheduled actions. *)
Definition schedule_report (scheduled_actions : list ScheduledAction) (now : Z)
    : M unit :=
  match scheduled_actions with
  | [] => print msg_no_actions
  | first :: others =>
      let current_time := now in
      let next_action := min_by StartTime first others in
      let start_time := StartTime next_action in
      let elapsed_time := (start_time - current_time)%Z in
      let elapsed_hms := split_dot_head (timedelta_str elapsed_time) in
      print [VStr "Next scheduled action start time:"; VDatetime start_time] ;;
      print [VStr "Elapsed time from current time:"; VStr elapsed_hms]
  end.

(** Lines 99-101: the two counts. *)
Definition activity_counts (activities : list Activity) : Z * Z :=
  let launched_count := sum_ones is_launched activities in
  let terminated_count := sum_ones is_terminated activities in
  (launched_count, terminated_count).

(** Lines 99-104. *)
Definition activity_report (activities : list Activity) : M unit :=
  let '(launched_count, terminated_count) := activity_counts activities in
  print [VStr "Launched instances count today:"; VInt launched_count] ;;
  print [VStr "Terminated instances count today:"; VInt terminated_count].

(** [now] is the reading of [datetime.now()], [today] the one of
    [datetime.today()]; midnight of [today] is [start_of_day]. *)
Definition verify_testcase_b (aws : Client) (asg_name : string) (now today : Z)
    : M unit :=
  call (
    let response := describe_scheduled_actions aws asg_name in
    let scheduled_actions := ScheduledUpdateGroupActions response in
    schedule_report scheduled_actions now ;;
    let start_of_day := (today - today `mod` day_us)%Z in
    let end_of_day := (start_of_day + day_us)%Z in
    let response :=
      describe_scaling_activities aws asg_name start_of_day end_of_day in
    let activities := Activities response in
    activity_report activities).

(** ** [main] *)

Definition main (aws : Client) (asg_name : string) (now_a now_b today_b : Z)
    : M unit :=
  call (
    verify_testcase_a aws asg_name now_a ;;
    print [] ;;
    verify_testcase_b aws asg_name now_b today_b).

(** ** Vocabulary of the specification

    The properties below are stated with these notions, which follow the
    words of the specification rather than the script. *)

(** The snapshot and its availability zones, as the script computes them. *)
Definition availability_zones (instances : list Instance) : gset string :=
  list_to_set (AvailabilityZone <$> instances).

(** The three identifiers the homogeneity check compares; the
    security-group identifier is the one of the first group, when there is
    one. *)
Definition config_of (instance : Instance) : option string * string * string :=
  (GroupId <$> head (SecurityGroups instance), ImageId instance, VpcId instance).

Definition uptime (now : Z) (instance : Instance) : Z :=
  (now - LaunchTime instance)%Z.

(** [s] begins with [p]. *)
Definition begins_with (p s : string) : Prop := ∃ rest, s = p +:+ rest.

Definition launch_prefix : string := "Launching a new EC2 instance".
Definition terminate_prefix : string := "Terminating EC2 instance".

Definition launched (activity : Activity) : Prop :=
  StatusCode activity = "Successful"
  ∧ begins_with launch_prefix (Description activity).

Definition terminated (activity : Activity) : Prop :=
  StatusCode activity = "Successful"
  ∧ begins_with terminate_prefix (Description activity).

(** [number_of P xs n]: exactly [n] elements of [xs] satisfy [P]. *)
Inductive number_of {A} (P : A → Prop) : list A → Z → Prop :=
  | number_of_nil : number_of P [] 0
  | number_of_yes x xs n :
      P x → number_of P xs n → number_of P (x :: xs) (n + 1)
  | number_of_no x xs n :
      ¬ P x → number_of P xs n → number_of P (x :: xs) n.

(** Some value printed in [out] is a text containing [id]. *)
Definition mentions (id : string) (out : list line) : bool :=
  existsb (existsb (λ v,
    match v with
    | VStr s => bool_decide (is_Some (String.index 0 id s))
    | _ => false
    end)) out.

(** The text of a whole number of seconds, in the words of Python's manual
    for [str] of a duration: the days, when they are not zero, then the time
    of day as [H:MM:SS], the hours without padding. *)
Definition whole_seconds_text (w : Z) : string :=
  let days := (w `div` 86400)%Z in
  let rest := (w `mod` 86400)%Z in
  let clock :=
    pretty (rest `div` 3600)%Z +:+ ":"
    +:+ zfill 2 ((rest `div` 60) `mod` 60)%Z +:+ ":"
    +:+ zfill 2 (rest `mod` 60)%Z in
  if bool_decide (days = 0%Z) then clock
  else pretty days +:+ " day"
       +:+ (if bool_decide (days = 1 ∨ days = -1)%Z then "" else "s")
       +:+ ", " +:+ clock.

(** Two instances alike in everything the script reads except, possibly,
    their security groups after the first one. *)
Definition alike_up_to_later_groups (i j : Instance) : Prop :=
  InstanceId i = InstanceId j
  ∧ LifecycleState i = LifecycleState j
  ∧ AvailabilityZone i = AvailabilityZone j
  ∧ head (SecurityGroups i) = head (SecurityGroups j)
  ∧ ImageId i = ImageId j
  ∧ VpcId i = VpcId j
  ∧ LaunchTime i = LaunchTime j.

(** No character of [s] is a dot. *)
Fixpoint no_dot (s : string) : Prop :=
  match s with
  | EmptyString => True
  | String c s' => c ≠ "."%char ∧ no_dot s'
  end.

(** ** Clients and snapshots used in the examples *)

Definition mk_instance (id az config : string) (launch : Z) : Instance :=
  {| InstanceId := id; LifecycleState := "InService"; AvailabilityZone := az;
     SecurityGroups := [ {| GroupId := "sg-" +:+ config |} ];
     ImageId := "ami-" +:+ config; VpcId := "vpc-" +:+ config;
     LaunchTime := launch |}.

Definition fixed_client (desired : Z) (instances : list Instance)
    (actions : list ScheduledAction) (activities : list Activity) : Client :=
  {| describe_auto_scaling_groups := λ _,
       {| AutoScalingGroups :=
            Some [ {| DesiredCapacity := desired; Instances := Some instances |} ] |};
     describe_scheduled_actions := λ _,
       {| ScheduledUpdateGroupActions := actions |};
     describe_scaling_activities := λ _ _ _,
       {| Activities := activities |} |}.

Definition spec_activities : list Activity :=
  [ {| StatusCode := "Successful"; Description := "Launching a new EC2 instance i-1" |};
    {| StatusCode := "Successful"; Description := "Terminating EC2 instance i-2" |};
    {| StatusCode := "Failed"; Description := "Launching a new EC2 instance i-3" |} ].

Definition sample_actions : list ScheduledAction :=
  [ {| ScheduledActionName := "scale-out"; StartTime := 7300000000 |};
    {| ScheduledActionName := "scale-in"; StartTime := 3700000000 |};
    {| ScheduledActionName := "nightly"; StartTime := 3700000000 |} ].

(** Two instances in service in two zones, same configuration, launched 90
    and 95 microseconds before the reading [100] of the clock; the ASG is
    configured for three instances. *)
Definition under_capacity_client : Client :=
  fixed_client 3
    [mk_instance "i-a" "us-east-1a" "x" 10; mk_instance "i-b" "us-east-1b" "x" 5]
    [] [].

(** A fleet of one instance, as desired. *)
Definition single_client : Client :=
  fixed_client 1 [mk_instance "i-a" "us-east-1a" "x" 10] [] [].

(** The second instance runs another image, in another VPC, under another
    security group. *)
Definition drift_client : Client :=
  fixed_client 2
    [mk_instance "i-a" "us-east-1a" "x" 10; mk_instance "i-b" "us-east-1b" "y" 5]
    [] [].

(** Two healthy instances launched at the very reading [100] of the clock. *)
Definition fresh_client : Client :=
  fixed_client 2
    [mk_instance "i-a" "us-east-1a" "x" 100; mk_instance "i-b" "us-east-1b" "x" 100]
    sample_actions spec_activities.

(** The same fleet, launched earlier. *)
Definition healthy_client : Client :=
  fixed_client 2
    [mk_instance "i-a" "us-east-1a" "x" 10; mk_instance "i-b" "us-east-1b" "x" 5]
    sample_actions spec_activities.

(** One scheduled action, due ten seconds after the origin of the clock. *)
Definition one_action_client : Client :=
  fixed_client 0 []
    [ {| ScheduledActionName := "scale-out"; StartTime := 10000000 |} ] [].

(** An ASG without instances. *)
Definition empty_client : Client := fixed_client 3 [] [] [].

Example timedelta_str_pos :
  timedelta_str 93784000005 = "1 day, 2:03:04.000005".
Proof. vm_compute. reflexivity. Qed.

Example timedelta_str_neg :
  split_dot_head (timedelta_str (-500000)) = "-1 day, 23:59:59".
Proof. vm_compute. reflexivity. Qed.

Example verify_a_two :
  verify_testcase_a
    (fixed_client 2 [mk_instance "i-a" "us-east-1a" "x" 10; mk_instance "i-b" "us-east-1b" "x" 5] [] [])
    "asg" 100
  = Run [msg_passed;
         [VStr "Longest running instance ID:"; VStr "i-b"];
         [VStr "Longest running instance uptime:"; VTimedelta 95]] (Ok tt).
Proof. vm_compute. reflexivity. Qed.

(** ** The counting generator *)

Section counting.
Context {A : Type} (cond : A → bool).

Lemma sum_ones_fold (xs : list A) (a : Z) :
  fold_left (λ acc x, if cond x then (acc + 1)%Z else acc) xs a
  = (a + sum_ones cond xs)%Z.
Proof.
  unfold sum_ones. revert a.
  induction xs as [|x xs IH]; intros a; simpl; [lia|].
  rewrite IH, (IH (if cond x then _ else _)).
  destruct (cond x); lia.
Qed.

Lemma sum_ones_nil : sum_ones cond [] = 0%Z.
Proof. reflexivity. Qed.

Lemma sum_ones_cons (x : A) (xs : list A) :
  sum_ones cond (x :: xs)
  = ((if cond x then 1 else 0) + sum_ones cond xs)%Z.
Proof.
  unfold sum_ones at 1. simpl. rewrite sum_ones_fold.
  destruct (cond x); lia.
Qed.

Lemma sum_ones_app (xs ys : list A) :
  sum_ones cond (xs ++ ys) = (sum_ones cond xs + sum_ones cond ys)%Z.
Proof.
  induction xs as [|x xs IH]; simpl; [by rewrite sum_ones_nil|].
  rewrite !sum_ones_cons, IH. lia.
Qed.

Lemma sum_ones_perm (xs ys : list A) :
  xs ≡ₚ ys → sum_ones cond xs = sum_ones cond ys.
Proof.
  induction 1 as [|x xs ys _ IH|x y xs|xs ys zs _ IH1 _ IH2].
  - done.
  - by rewrite !sum_ones_cons, IH.
  - rewrite !sum_ones_cons. lia.
  - by rewrite IH1.
Qed.

Lemma sum_ones_bounds (xs : list A) :
  (0 ≤ sum_ones cond xs ≤ len xs)%Z.
Proof.
  unfold len. induction xs as [|x xs IH]; [by rewrite sum_ones_nil|].
  rewrite sum_ones_cons. simpl length. destruct (cond x); lia.
Qed.

Lemma sum_ones_number_of (P : A → Prop) (xs : list A) :
  (∀ x, cond x = true ↔ P x) → number_of P xs (sum_ones cond xs).
Proof.
  intros HP. induction xs as [|x xs IH]; [constructor|].
  rewrite sum_ones_cons. destruct (cond x) eqn:Hx.
  - replace (1 + sum_ones cond xs)%Z with (sum_ones cond xs + 1)%Z by lia.
    constructor; [by apply HP|done].
  - constructor; [|done]. rewrite <- HP, Hx. done.
Qed.
End counting.

Lemma number_of_unique {A} (P : A → Prop) (xs : list A) (n m : Z) :
  number_of P xs n → number_of P xs m → n = m.
Proof.
  intros Hn. revert m.
  induction Hn as [|x xs n Hx _ IH|x xs n Hx _ IH]; intros m Hm;
    inversion Hm; subst; try done; try (by f_equal; apply IH); by apply IH.
Qed.

(** ** Prefixes *)

Lemma append_cons (c : ascii) (s t : string) :
  String c s +:+ t = String c (s +:+ t).
Proof. reflexivity. Qed.

Lemma prefix_begins_with (p s : string) :
  String.prefix p s = true ↔ begins_with p s.
Proof.
  unfold begins_with. revert s.
  induction p as [|c p IH]; intros s.
  - split; [intros _; by exists s|by destruct s].
  - destruct s as [|d s]; simpl.
    + split; [done|intros [rest Hr]; by rewrite append_cons in Hr].
    + destruct (Ascii.ascii_dec c d) as [->|Hne].
      * rewrite IH. split; intros [rest Hr]; exists rest;
          rewrite append_cons in *; congruence.
      * split; [done|intros [rest Hr]; rewrite append_cons in Hr; congruence].
Qed.

Lemma is_launched_spec (activity : Activity) :
  is_launched activity = true ↔ launched activity.
Proof.
  unfold is_launched, launched.
  rewrite andb_true_iff, bool_decide_eq_true, prefix_begins_with. done.
Qed.

Lemma is_terminated_spec (activity : Activity) :
  is_terminated activity = true ↔ terminated activity.
Proof.
  unfold is_terminated, terminated.
  rewrite andb_true_iff, bool_decide_eq_true, prefix_begins_with. done.
Qed.

Lemma launched_not_terminated (activity : Activity) :
  ¬ (launched activity ∧ terminated activity).
Proof.
  intros [[_ [r1 H1]] [_ [r2 H2]]]. rewrite H1 in H2. discriminate.
Qed.

(** ** The uptime loop *)

Section ranking.
Context (now : Z).

Lemma uptime_loop_nil : uptime_loop now [] = (0%Z, None).
Proof. reflexivity. Qed.

Lemma uptime_loop_snoc (xs : list Instance) (y : Instance) :
  uptime_loop now (xs ++ [y]) = uptime_step now (uptime_loop now xs) y.
Proof. unfold uptime_loop. by rewrite fold_left_app. Qed.

(** What the loop leaves in its two variables: either nothing was ever
    stored, and then no uptime is positive, or the stored instance is the
    first one of maximal uptime, and that uptime is positive. *)
Lemma uptime_loop_spec (xs : list Instance) :
  match uptime_loop now xs with
  | (u, None) => u = 0%Z ∧ ∀ i, i ∈ xs → (uptime now i ≤ 0)%Z
  | (u, Some m) =>
      u = uptime now m ∧ (0 < u)%Z
      ∧ ∃ pre post, xs = pre ++ m :: post
          ∧ (∀ i, i ∈ pre → (uptime now i < u)%Z)
          ∧ (∀ i, i ∈ post → (uptime now i ≤ u)%Z)
  end.
Proof.
  induction xs as [|y xs IH] using rev_ind.
  - split; [done|]. intros i Hi. by apply elem_of_nil in Hi.
  - rewrite uptime_loop_snoc.
    destruct (uptime_loop now xs) as [u [m|]]; unfold uptime_step; simpl;
      fold (uptime now y); case_bool_decide as Hy.
    + destruct IH as (-> & Hpos & pre & post & -> & Hpre & Hpost).
      split; [done|]. split; [lia|].
      exists (pre ++ m :: post), []. split; [done|].
      split; [|intros i Hi; by apply elem_of_nil in Hi].
      intros i [Hi|Hi]%elem_of_app; [apply Hpre in Hi; lia|].
      apply elem_of_cons in Hi as [->|Hi]; [lia|apply Hpost in Hi; lia].
    + destruct IH as (-> & Hpos & pre & post & -> & Hpre & Hpost).
      split; [done|]. split; [done|].
      exists pre, (post ++ [y]). split; [by rewrite <- app_assoc|].
      split; [done|].
      intros i [Hi|Hi]%elem_of_app; [by apply Hpost|].
      apply list_elem_of_singleton in Hi as ->. lia.
    + destruct IH as (-> & Hle).
      split; [done|]. split; [lia|].
      exists xs, []. split; [done|].
      split; [|intros i Hi; by apply elem_of_nil in Hi].
      intros i Hi. apply Hle in Hi. lia.
    + destruct IH as (-> & Hle).
      split; [done|].
      intros i [Hi|Hi]%elem_of_app; [by apply Hle|].
      apply list_elem_of_singleton in Hi as ->. lia.
Qed.

Lemma uptime_loop_none (xs : list Instance) :
  (∀ i, i ∈ xs → (uptime now i ≤ 0)%Z) → uptime_loop now xs = (0%Z, None).
Proof.
  intros Hle. pose proof (uptime_loop_spec xs) as H.
  destruct (uptime_loop now xs) as [u [m|]].
  - destruct H as (-> & Hpos & pre & post & -> & _).
    assert (uptime now m ≤ 0)%Z; [|lia].
    apply Hle, elem_of_app. right. apply elem_of_cons. by left.
  - by destruct H as [-> _].
Qed.

Lemma uptime_loop_some (xs : list Instance) (i : Instance) :
  i ∈ xs → (0 < uptime now i)%Z →
  ∃ m pre post,
    uptime_loop now xs = (uptime now m, Some m)
    ∧ xs = pre ++ m :: post
    ∧ (∀ j, j ∈ pre → (uptime now j < uptime now m)%Z)
    ∧ (∀ j, j ∈ post → (uptime now j ≤ uptime now m)%Z).
Proof.
  intros Hi Hpos. pose proof (uptime_loop_spec xs) as H.
  destruct (uptime_loop now xs) as [u [m|]].
  - destruct H as (-> & _ & pre & post & -> & Hpre & Hpost).
    by exists m, pre, post.
  - destruct H as [_ Hle]. apply Hle in Hi. lia.
Qed.
End ranking.

(** ** [min] with a key *)

Lemma min_by_snoc {A} (key : A → Z) (x : A) (xs : list A) (y : A) :
  min_by key x (xs ++ [y])
  = if bool_decide (key y < key (min_by key x xs))%Z then y else min_by key x xs.
Proof. unfold min_by. by rewrite fold_left_app. Qed.

(** [min] returns the first element of minimal key. *)
Lemma min_by_spec {A} (key : A → Z) (x : A) (xs : list A) :
  ∃ pre post, x :: xs = pre ++ min_by key x xs :: post
    ∧ (∀ i, i ∈ pre → (key (min_by key x xs) < key i)%Z)
    ∧ (∀ i, i ∈ post → (key (min_by key x xs) ≤ key i)%Z).
Proof.
  induction xs as [|y xs IH] using rev_ind.
  - exists [], []. split; [done|].
    split; intros i Hi; by apply elem_of_nil in Hi.
  - rewrite min_by_snoc. destruct IH as (pre & post & Heq & Hpre & Hpost).
    case_bool_decide as Hy.
    + exists (x :: xs), []. split; [done|].
      split; [|intros i Hi; by apply elem_of_nil in Hi].
      intros i Hi. rewrite Heq in Hi.
      apply elem_of_app in Hi as [Hi|Hi]; [apply Hpre in Hi; lia|].
      apply elem_of_cons in Hi as [->|Hi]; [lia|apply Hpost in Hi; lia].
    + exists pre, (post ++ [y]). split.
      * rewrite app_comm_cons, Heq, <- app_assoc. done.
      * split; [done|].
        intros i [Hi|Hi]%elem_of_app; [by apply Hpost|].
        apply list_elem_of_singleton in Hi as ->. lia.
Qed.

Lemma min_by_elem {A} (key : A → Z) (x : A) (xs : list A) :
  min_by key x xs ∈ x :: xs.
Proof.
  destruct (min_by_spec key x xs) as (pre & post & -> & _).
  apply elem_of_app. right. apply elem_of_cons. by left.
Qed.

Lemma min_by_le {A} (key : A → Z) (x : A) (xs : list A) (i : A) :
  i ∈ x :: xs → (key (min_by key x xs) ≤ key i)%Z.
Proof.
  destruct (min_by_spec key x xs) as (pre & post & Heq & Hpre & Hpost).
  rewrite Heq at 1. intros [Hi|Hi]%elem_of_app; [apply Hpre in Hi; lia|].
  apply elem_of_cons in Hi as [->|Hi]; [lia|by apply Hpost].
Qed.

(** ** Running computations *)

Lemma bind_ok {A B} (out : list line) (a : A) (f : A → M B) :
  Run out (Ok a) ≫= f = Run (out ++ stdout (f a)) (outcome (f a)).
Proof. reflexivity. Qed.

Lemma bind_return {A B} (out : list line) (f : A → M B) :
  Run out Return ≫= f = Run out Return.
Proof. reflexivity. Qed.

Lemma bind_raise {A B} (out : list line) (e : exn) (f : A → M B) :
  Run out (Raise e) ≫= f = Run out (Raise e).
Proof. reflexivity. Qed.

Lemma run_eta {A} (m : M A) : Run (stdout m) (outcome m) = m.
Proof. by destruct m. Qed.

Ltac run_simpl :=
  repeat (progress (unfold print, return_, raise, mret, M_ret;
                    rewrite ?bind_ok, ?bind_return, ?bind_raise; simpl)).

(** ** The homogeneity loop *)

Section comparison.
Context (security_group image_id vpc_id : string).

Let reference : option string * string * string :=
  (Some security_group, image_id, vpc_id).

Lemma homogeneity_body_same (i : Instance) :
  config_of i = reference →
  homogeneity_body security_group image_id vpc_id i = Run [] (Ok tt).
Proof.
  unfold config_of, reference, homogeneity_body. intros Heq.
  destruct (SecurityGroups i) as [|sg sgs]; simplify_eq/=.
  run_simpl. rewrite !bool_decide_eq_false_2 by (intros ?; done). done.
Qed.

Lemma homogeneity_body_diff (i : Instance) :
  SecurityGroups i ≠ [] → config_of i ≠ reference →
  homogeneity_body security_group image_id vpc_id i = Run [msg_drift] Return.
Proof.
  unfold config_of, reference, homogeneity_body. intros Hsg Hne.
  destruct (SecurityGroups i) as [|sg sgs]; [done|]. simpl in *. run_simpl.
  destruct (decide (GroupId sg = security_group)) as [Hg|Hg];
    [|by rewrite (bool_decide_eq_true_2 _ Hg)].
  destruct (decide (ImageId i = image_id)) as [Him|Him];
    [|by rewrite (bool_decide_eq_true_2 _ Him), orb_true_r].
  destruct (decide (VpcId i = vpc_id)) as [Hv|Hv];
    [|by rewrite (bool_decide_eq_true_2 _ Hv), orb_true_r].
  congruence.
Qed.

Lemma for_each_same (xs : list Instance) :
  (∀ i, i ∈ xs → config_of i = reference) →
  for_each xs (homogeneity_body security_group image_id vpc_id) = Run [] (Ok tt).
Proof.
  induction xs as [|x xs IH]; intros Hall; [done|]. simpl.
  rewrite homogeneity_body_same by (apply Hall; by left).
  rewrite bind_ok, IH; [done|]. intros i Hi. apply Hall. by right.
Qed.

Lemma for_each_diff (xs : list Instance) :
  (∀ i, i ∈ xs → SecurityGroups i ≠ []) →
  ¬ (∀ i, i ∈ xs → config_of i = reference) →
  for_each xs (homogeneity_body security_group image_id vpc_id)
  = Run [msg_drift] Return.
Proof.
  induction xs as [|x xs IH]; intros Hsg Hsome.
  - destruct Hsome. intros i Hi. by apply elem_of_nil in Hi.
  - simpl. destruct (decide (config_of x = reference)) as [Hx|Hx].
    + rewrite homogeneity_body_same by done.
      rewrite bind_ok, IH; [done| |].
      * intros i Hi. apply Hsg. by right.
      * intros Hall. apply Hsome. intros i [->|Hi]%elem_of_cons; auto.
    + rewrite homogeneity_body_diff; [done| |done]. apply Hsg. by left.
Qed.
End comparison.

Lemma homogeneity_check_cons (first : Instance) (rest : list Instance)
    (sg0 : SecurityGroup) (sgs : list SecurityGroup) :
  SecurityGroups first = sg0 :: sgs →
  homogeneity_check (first :: rest)
  = for_each (first :: rest)
      (homogeneity_body (GroupId sg0) (ImageId first) (VpcId first)).
Proof.
  intros Hfirst. unfold homogeneity_check.
  change (index0 (first :: rest)) with (Run [] (Ok first)).
  rewrite bind_ok. cbv beta. rewrite Hfirst.
  change (index0 (sg0 :: sgs)) with (Run [] (Ok sg0)).
  rewrite bind_ok. cbv beta. by rewrite !app_nil_l, !run_eta.
Qed.

Lemma homogeneity_check_pass (first : Instance) (rest : list Instance) :
  SecurityGroups first ≠ [] →
  (∀ i, i ∈ first :: rest → config_of i = config_of first) →
  homogeneity_check (first :: rest) = Run [] (Ok tt).
Proof.
  intros Hsg Hall.
  destruct (SecurityGroups first) as [|sg0 sgs] eqn:Hfirst; [done|].
  rewrite (homogeneity_check_cons _ _ _ _ Hfirst).
  apply for_each_same. intros i Hi. rewrite (Hall i Hi).
  unfold config_of. by rewrite Hfirst.
Qed.

Lemma homogeneity_check_drift (first : Instance) (rest : list Instance) :
  (∀ i, i ∈ first :: rest → SecurityGroups i ≠ []) →
  ¬ (∀ i, i ∈ first :: rest → config_of i = config_of first) →
  homogeneity_check (first :: rest) = Run [msg_drift] Return.
Proof.
  intros Hsg Hsome.
  assert (SecurityGroups first ≠ []) as Hne by (apply Hsg; by left).
  destruct (SecurityGroups first) as [|sg0 sgs] eqn:Hfirst; [done|].
  rewrite (homogeneity_check_cons _ _ _ _ Hfirst).
  apply for_each_diff; [done|]. intros Hall. apply Hsome. intros i Hi.
  rewrite (Hall i Hi). unfold config_of. by rewrite Hfirst.
Qed.

(** ** The report of a passed test *)

Lemma uptime_report_none (now : Z) (xs : list Instance) :
  (∀ i, i ∈ xs → (uptime now i ≤ 0)%Z) →
  uptime_report now xs = Run [msg_passed] (Raise TypeError).
Proof.
  intros Hle. unfold uptime_report. by rewrite uptime_loop_none.
Qed.

Lemma uptime_report_some (now : Z) (xs : list Instance) (i : Instance) :
  i ∈ xs → (0 < uptime now i)%Z →
  ∃ m pre post,
    xs = pre ++ m :: post
    ∧ (∀ j, j ∈ pre → (uptime now j < uptime now m)%Z)
    ∧ (∀ j, j ∈ post → (uptime now j ≤ uptime now m)%Z)
    ∧ uptime_report now xs
      = Run [msg_passed;
             [VStr "Longest running instance ID:"; VStr (InstanceId m)];
             [VStr "Longest running instance uptime:"; VTimedelta (uptime now m)]]
            (Ok tt).
Proof.
  intros Hi Hpos.
  destruct (uptime_loop_some now xs i Hi Hpos)
    as (m & pre & post & Hloop & Hxs & Hpre & Hpost).
  exists m, pre, post. repeat (split; [done|]).
  unfold uptime_report. by rewrite Hloop.
Qed.

Lemma uptime_report_no_return (now : Z) (xs : list Instance) :
  outcome (uptime_report now xs) ≠ Return.
Proof.
  unfold uptime_report. by destruct (uptime_loop now xs) as [u [m|]].
Qed.

Lemma call_no_return (m : M unit) : outcome m ≠ Return → call m = m.
Proof. unfold call. by destruct (outcome m). Qed.

(** ** The three checks of [verify_testcase_a], one exit each *)

Section exits.
Context (aws : Client) (asg_name : string) (now : Z).

Let instances := get_asg_instances aws asg_name.

Lemma verify_a_capacity :
  len instances ≠ sum_ones in_service instances →
  verify_testcase_a aws asg_name now = Run [msg_capacity] (Ok tt).
Proof.
  intros Hne. unfold verify_testcase_a. fold instances.
  by rewrite bool_decide_eq_true_2.
Qed.

Lemma verify_a_az_spread :
  len instances = sum_ones in_service instances →
  size (availability_zones instances) < 2 →
  verify_testcase_a aws asg_name now = Run [msg_az_spread] (Ok tt).
Proof.
  intros Heq Hlt. unfold verify_testcase_a. fold instances.
  rewrite bool_decide_eq_false_2 by (intros ?; done).
  fold (availability_zones instances). by rewrite bool_decide_eq_true_2.
Qed.

Lemma verify_a_checks :
  len instances = sum_ones in_service instances →
  2 ≤ size (availability_zones instances) →
  verify_testcase_a aws asg_name now
  = call (homogeneity_check instances ;; uptime_report now instances).
Proof.
  intros Heq Hge. unfold verify_testcase_a. fold instances.
  rewrite bool_decide_eq_false_2 by (intros ?; done).
  fold (availability_zones instances).
  by rewrite bool_decide_eq_false_2 by lia.
Qed.

Lemma verify_a_drift :
  len instances = sum_ones in_service instances →
  2 ≤ size (availability_zones instances) →
  homogeneity_check instances = Run [msg_drift] Return →
  verify_testcase_a aws asg_name now = Run [msg_drift] (Ok tt).
Proof.
  intros Heq Hge Hdrift. by rewrite verify_a_checks, Hdrift.
Qed.

Lemma verify_a_report :
  len instances = sum_ones in_service instances →
  2 ≤ size (availability_zones instances) →
  homogeneity_check instances = Run [] (Ok tt) →
  verify_testcase_a aws asg_name now = uptime_report now instances.
Proof.
  intros Heq Hge Hsame. rewrite verify_a_checks, Hsame by done.
  rewrite bind_ok, app_nil_l, run_eta.
  apply call_no_return, uptime_report_no_return.
Qed.
End exits.

(** ** [verify_testcase_b] and [main] *)

Lemma schedule_report_nil (now : Z) :
  schedule_report [] now = Run [msg_no_actions] (Ok tt).
Proof. reflexivity. Qed.

Lemma schedule_report_cons (first : ScheduledAction)
    (others : list ScheduledAction) (now : Z) :
  schedule_report (first :: others) now
  = Run [[VStr "Next scheduled action start time:";
          VDatetime (StartTime (min_by StartTime first others))];
         [VStr "Elapsed time from current time:";
          VStr (split_dot_head
                  (timedelta_str (StartTime (min_by StartTime first others) - now)))]]
        (Ok tt).
Proof. reflexivity. Qed.

Lemma activity_report_run (activities : list Activity) :
  activity_report activities
  = Run [[VStr "Launched instances count today:";
          VInt (activity_counts activities).1];
         [VStr "Terminated instances count today:";
          VInt (activity_counts activities).2]]
        (Ok tt).
Proof. reflexivity. Qed.

Lemma verify_b_run (aws : Client) (asg_name : string) (now today : Z) :
  verify_testcase_b aws asg_name now today
  = Run (stdout (schedule_report
                   (ScheduledUpdateGroupActions
                      (describe_scheduled_actions aws asg_name)) now)
         ++ stdout (activity_report
                      (Activities
                         (describe_scaling_activities aws asg_name
                            (today - today `mod` day_us)
                            (today - today `mod` day_us + day_us)))))
        (Ok tt).
Proof.
  unfold verify_testcase_b.
  destruct (ScheduledUpdateGroupActions _) as [|first others];
    [rewrite schedule_report_nil|rewrite schedule_report_cons];
    by rewrite activity_report_run.
Qed.

Lemma verify_a_no_return (aws : Client) (asg_name : string) (now : Z) :
  outcome (verify_testcase_a aws asg_name now) ≠ Return.
Proof.
  unfold verify_testcase_a, call.
  match goal with |- outcome (match outcome ?m with _ => _ end) ≠ _ =>
    destruct m as [out [[]| |e]] end; done.
Qed.

(** When [verify_testcase_a] comes back, whatever it printed, [main] goes on
    with the empty line and [verify_testcase_b]. *)
Lemma main_after_a (aws : Client) (asg_name : string) (now_a now_b today_b : Z) :
  outcome (verify_testcase_a aws asg_name now_a) = Ok tt →
  main aws asg_name now_a now_b today_b
  = Run (stdout (verify_testcase_a aws asg_name now_a)
         ++ [] :: stdout (verify_testcase_b aws asg_name now_b today_b))
        (Ok tt).
Proof.
  intros Hok. unfold main.
  rewrite <- (run_eta (verify_testcase_a _ _ _)), Hok, bind_ok.
  rewrite verify_b_run. reflexivity.
Qed.

(** When it raises, so does [main], at once. *)
Lemma main_a_raises (aws : Client) (asg_name : string) (now_a now_b today_b : Z)
    (e : exn) :
  outcome (verify_testcase_a aws asg_name now_a) = Raise e →
  main aws asg_name now_a now_b today_b
  = Run (stdout (verify_testcase_a aws asg_name now_a)) (Raise e).
Proof.
  intros Hraise. unfold main.
  by rewrite <- (run_eta (verify_testcase_a _ _ _)), Hraise, bind_raise.
Qed.

(** A failed check is an ordinary return: none of the three hides the
    second test. *)
Lemma main_after_failed_check (aws : Client) (asg_name : string)
    (now_a now_b today_b : Z) (msg : line) :
  verify_testcase_a aws asg_name now_a = Run [msg] (Ok tt) →
  main aws asg_name now_a now_b today_b
  = Run (msg :: [] :: stdout (verify_testcase_b aws asg_name now_b today_b))
        (Ok tt).
Proof.
  intros Hfail. rewrite main_after_a by (by rewrite Hfail). by rewrite Hfail.
Qed.

(** ** The text of a duration

    The only dot [str] puts in the text of a duration is the one before the
    microseconds, so cutting the text at its first dot gives the text of the
    duration rounded down to the second. *)

Lemma split_dot_head_no_dot (s : string) : no_dot s → split_dot_head s = s.
Proof.
  induction s as [|c s IH]; [done|]. intros [Hc Hs]. simpl.
  by rewrite bool_decide_eq_false_2, IH.
Qed.

Lemma split_dot_head_fraction (s t : string) :
  no_dot s → split_dot_head (s +:+ "." +:+ t) = s.
Proof.
  induction s as [|c s IH]; [done|]. intros [Hc Hs].
  rewrite append_cons. simpl. by rewrite bool_decide_eq_false_2, IH.
Qed.

Lemma no_dot_app (s t : string) : no_dot s → no_dot t → no_dot (s +:+ t).
Proof.
  induction s as [|c s IH]; [done|]. intros [Hc Hs] Ht.
  rewrite append_cons. split; [done|by apply IH].
Qed.

Lemma no_dot_pretty_N_go (x : N) (s : string) :
  no_dot s → no_dot (pretty_N_go x s).
Proof.
  revert s. induction (N.lt_wf_0 x) as [x _ IH]. intros s Hs.
  destruct (decide (x = 0)%N) as [->|Hx]; [by rewrite pretty_N_go_0|].
  rewrite pretty_N_go_step by lia.
  apply IH; [apply N.div_lt; lia|]. split; [|done].
  unfold pretty_N_char. by repeat case_match.
Qed.

Lemma no_dot_pretty_Z (z : Z) : no_dot (pretty z).
Proof.
  assert (∀ p : positive, no_dot (pretty p)) as Hpos.
  { intros p. unfold pretty, pretty_positive, pretty, pretty_N.
    case_decide; [done|]. by apply no_dot_pretty_N_go. }
  destruct z as [|p|p]; [done|apply Hpos|].
  change (no_dot ("-" +:+ pretty p)). by apply no_dot_app.
Qed.

Lemma no_dot_zfill (w : nat) (n : Z) : no_dot (zfill w n).
Proof.
  unfold zfill. apply no_dot_app; [|apply no_dot_pretty_Z].
  induction (w - _) as [|k IH]; [done|]. by split.
Qed.

Lemma timedelta_str_whole (d : Z) :
  split_dot_head (timedelta_str d) = timedelta_str (d - d `mod` 1000000).
Proof.
  assert ((d - d `mod` 1000000) `div` day_us = d `div` day_us)%Z as Hdays.
  { unfold day_us. Z.div_mod_to_equations. lia. }
  assert (((d - d `mod` 1000000) `mod` day_us) `div` 1000000
          = (d `mod` day_us) `div` 1000000)%Z as Hsec.
  { unfold day_us. Z.div_mod_to_equations. lia. }
  assert (((d - d `mod` 1000000) `mod` day_us) `mod` 1000000 = 0)%Z as Hus.
  { unfold day_us. Z.div_mod_to_equations. lia. }
  unfold timedelta_str. rewrite Hdays, Hsec, Hus.
  rewrite (bool_decide_eq_false_2 (0 ≠ 0)%Z) by (intros H; by apply H).
  set (days := (d `div` day_us)%Z).
  set (seconds := ((d `mod` day_us) `div` 1000000)%Z).
  set (clock := pretty ((seconds `div` 60) `div` 60)%Z +:+ ":"
                +:+ zfill 2 ((seconds `div` 60) `mod` 60)%Z +:+ ":"
                +:+ zfill 2 (seconds `mod` 60)%Z).
  assert (no_dot clock) as Hclock.
  { unfold clock.
    apply no_dot_app; [apply no_dot_pretty_Z|].
    apply (no_dot_app ":"); [by split|].
    apply no_dot_app; [apply no_dot_zfill|].
    apply (no_dot_app ":"); [by split|]. apply no_dot_zfill. }
  set (whole := if bool_decide (days ≠ 0%Z) then _ else clock).
  assert (no_dot whole) as Hwhole.
  { unfold whole. case_bool_decide; [|done].
    apply no_dot_app; [apply no_dot_pretty_Z|].
    apply (no_dot_app " day"); [by repeat split|].
    apply no_dot_app; [by case_bool_decide; repeat split|].
    apply (no_dot_app ", "); [by repeat split|done]. }
  case_bool_decide.
  - by apply split_dot_head_fraction.
  - by apply split_dot_head_no_dot.
Qed.

Lemma elapsed_text_whole_seconds (d : Z) :
  split_dot_head (timedelta_str d) = whole_seconds_text (d `div` 1000000).
Proof.
  rewrite timedelta_str_whole.
  set (whole := (d - d `mod` 1000000)%Z). set (w := (d `div` 1000000)%Z).
  assert ((whole `mod` day_us) `mod` 1000000 = 0)%Z as Hus.
  { unfold whole, day_us. Z.div_mod_to_equations. lia. }
  assert (whole `div` day_us = w `div` 86400)%Z as Hdays.
  { unfold whole, w, day_us. Z.div_mod_to_equations. lia. }
  assert ((whole `mod` day_us) `div` 1000000 = w `mod` 86400)%Z as Hsec.
  { unfold whole, w, day_us. Z.div_mod_to_equations. lia. }
  unfold timedelta_str, whole_seconds_text. rewrite Hus, Hdays, Hsec.
  rewrite (bool_decide_eq_false_2 (0 ≠ 0)%Z) by (intros H; by apply H).
  assert (((w `mod` 86400) `div` 60) `div` 60 = (w `mod` 86400) `div` 3600)%Z
    as -> by (by rewrite Z.div_div by lia).
  destruct (decide (w `div` 86400 = 0)%Z) as [Hzero|Hzero].
  - by rewrite (bool_decide_eq_false_2 _ (λ H, H Hzero)), (bool_decide_eq_true_2 _ Hzero).
  - rewrite (bool_decide_eq_true_2 _ Hzero), (bool_decide_eq_false_2 _ Hzero).
    destruct (decide (Z.abs (w `div` 86400) = 1)%Z) as [Hone|Hone].
    + rewrite (bool_decide_eq_false_2 (Z.abs _ ≠ 1)%Z) by (intros H; by apply H).
      by rewrite bool_decide_eq_true_2 by lia.
    + rewrite (bool_decide_eq_true_2 _ Hone).
      by rewrite bool_decide_eq_false_2 by lia.
Qed.

(** * The specification, claim by claim *)

(** ** Capacity *)

(** The first check compares the length of the snapshot with the number of
    its instances in service ([verify_a_capacity], [verify_a_az_spread] and
    [verify_a_checks] above).  The configured capacity of the ASG plays no
    part: two ASGs that differ in it alone are judged alike. *)
Lemma capacity_check_ignores_desired (desired desired' : Z)
    (instances : list Instance) (actions : list ScheduledAction)
    (activities : list Activity) (asg_name : string) (now : Z) :
  verify_testcase_a (fixed_client desired instances actions activities) asg_name now
  = verify_testcase_a (fixed_client desired' instances actions activities) asg_name now.
Proof. reflexivity. Qed.

(** C1 (capacity check, defect of the script).  The ASG is configured for
    three instances and two are in service, so the in-service count differs
    from the desired capacity; the script takes the length of the snapshot
    for the desired count, finds 2 = 2, and goes on to report a passed
    test. *)
Theorem capacity_check_uses_snapshot_length :
  DesiredCapacity
    <$> (AutoScalingGroups (describe_auto_scaling_groups under_capacity_client ["asg"])
         ≫= head)
  = Some 3%Z
  ∧ sum_ones in_service (get_asg_instances under_capacity_client "asg") = 2%Z
  ∧ verify_testcase_a under_capacity_client "asg" 100
    = Run [msg_passed;
           [VStr "Longest running instance ID:"; VStr "i-b"];
           [VStr "Longest running instance uptime:"; VTimedelta 95]]
          (Ok tt).
Proof. repeat split; vm_compute; reflexivity. Qed.

(** The other way round: two instances in service, as desired, and a third
    one on its way out make the script report a capacity mismatch. *)
Example capacity_check_counts_leaving_instance :
  let leaving :=
    {| InstanceId := "i-c"; LifecycleState := "Terminating";
       AvailabilityZone := "us-east-1c";
       SecurityGroups := [ {| GroupId := "sg-x" |} ];
       ImageId := "ami-x"; VpcId := "vpc-x"; LaunchTime := 1 |} in
  let aws :=
    fixed_client 2
      [mk_instance "i-a" "us-east-1a" "x" 10; mk_instance "i-b" "us-east-1b" "x" 5;
       leaving] [] [] in
  sum_ones in_service (get_asg_instances aws "asg") = 2%Z
  ∧ verify_testcase_a aws "asg" 100 = Run [msg_capacity] (Ok tt).
Proof. split; vm_compute; reflexivity. Qed.

(** ** Spread over availability zones *)

(** The second check asks for two zones whatever the number of instances:
    no snapshot of fewer than two instances gets past it. *)
Lemma az_spread_needs_two_instances (aws : Client) (asg_name : string) (now : Z) :
  len (get_asg_instances aws asg_name)
  = sum_ones in_service (get_asg_instances aws asg_name) →
  length (get_asg_instances aws asg_name) ≤ 1 →
  verify_testcase_a aws asg_name now = Run [msg_az_spread] (Ok tt).
Proof.
  intros Heq Hlen. apply verify_a_az_spread; [done|].
  unfold availability_zones.
  destruct (get_asg_instances aws asg_name) as [|i [|j rest]]; simpl in Hlen.
  - change (size (∅ : gset string) < 2). rewrite size_empty. lia.
  - change (size ({[AvailabilityZone i]} ∪ ∅ : gset string) < 2).
    rewrite union_empty_r_L, size_singleton. lia.
  - lia.
Qed.

(** C2 (AZ-spread check, defect of the script).  A fleet of one instance in
    service, which the docstring of the procedure exempts from the rule,
    fails the test for want of a second zone. *)
Theorem single_instance_fails_az_spread :
  length (get_asg_instances single_client "asg") = 1
  ∧ sum_ones in_service (get_asg_instances single_client "asg") = 1%Z
  ∧ verify_testcase_a single_client "asg" 100 = Run [msg_az_spread] (Ok tt).
Proof. repeat split; vm_compute; reflexivity. Qed.

(** ** Homogeneity *)

(** C3, as stated, fails on the script: the failed homogeneity check prints
    one fixed sentence.  Here [i-b] is the instance that differs from the
    first one, and nothing printed mentions it. *)
Lemma drift_message_names_no_instance :
  config_of (mk_instance "i-b" "us-east-1b" "y" 5)
  ≠ config_of (mk_instance "i-a" "us-east-1a" "x" 10)
  ∧ verify_testcase_a drift_client "asg" 100 = Run [msg_drift] (Ok tt)
  ∧ mentions "i-b" (stdout (verify_testcase_a drift_client "asg" 100)) = false.
Proof. split; [by vm_compute|]. split; vm_compute; reflexivity. Qed.

(** C3 (homogeneity check, amended).  A snapshot that got past the first two
    checks, each of its instances carrying at least one security group,
    passes the third exactly when every instance has the security-group
    identifier, the image identifier and the VPC identifier of the first
    one; otherwise the run ends on the fixed drift message, and on nothing
    else. *)
Theorem homogeneity_check_verdict (aws : Client) (asg_name : string) (now : Z)
    (first : Instance) (rest : list Instance) :
  get_asg_instances aws asg_name = first :: rest →
  len (first :: rest) = sum_ones in_service (first :: rest) →
  2 ≤ size (availability_zones (first :: rest)) →
  (∀ i, i ∈ first :: rest → SecurityGroups i ≠ []) →
  ((∀ i, i ∈ first :: rest → config_of i = config_of first)
   ↔ ∃ more st, verify_testcase_a aws asg_name now = Run (msg_passed :: more) st)
  ∧ (¬ (∀ i, i ∈ first :: rest → config_of i = config_of first)
     ↔ verify_testcase_a aws asg_name now = Run [msg_drift] (Ok tt)).
Proof.
  intros Hsnap Hcap Haz Hsg.
  assert ((∀ i, i ∈ first :: rest → config_of i = config_of first) →
          ∃ more st, verify_testcase_a aws asg_name now = Run (msg_passed :: more) st)
    as Hpass.
  { intros Hall. rewrite verify_a_report; rewrite Hsnap; try done.
    - unfold uptime_report. destruct (uptime_loop _ _) as [u [m|]]; by eexists _, _.
    - apply homogeneity_check_pass; [|done]. apply Hsg. by left. }
  assert (¬ (∀ i, i ∈ first :: rest → config_of i = config_of first) →
          verify_testcase_a aws asg_name now = Run [msg_drift] (Ok tt))
    as Hdrift.
  { intros Hsome. apply verify_a_drift; rewrite Hsnap; try done.
    by apply homogeneity_check_drift. }
  assert (Decision (∀ i, i ∈ first :: rest → config_of i = config_of first))
    as [Hall|Hsome].
  { destruct (decide (Forall (λ i, config_of i = config_of first) (first :: rest)))
      as [HF|HF]; [left|right]; by rewrite <- Forall_forall. }
  - split; [done|]. split; [done|].
    intros Hrun. destruct (Hpass Hall) as (more & st & Hrun').
    rewrite Hrun in Hrun'. discriminate.
  - split; [|done]. split; [done|].
    intros (more & st & Hrun). rewrite (Hdrift Hsome) in Hrun. discriminate.
Qed.

Lemma homogeneity_check_verdict_witness :
  get_asg_instances healthy_client "asg"
  = [mk_instance "i-a" "us-east-1a" "x" 10; mk_instance "i-b" "us-east-1b" "x" 5]
  ∧ ∃ more st, verify_testcase_a healthy_client "asg" 100 = Run (msg_passed :: more) st.
Proof.
  split; [reflexivity|].
  apply (homogeneity_check_verdict healthy_client "asg" 100
           (mk_instance "i-a" "us-east-1a" "x" 10)
           [mk_instance "i-b" "us-east-1b" "x" 5]).
  - reflexivity.
  - vm_compute. reflexivity.
  - vm_compute. lia.
  - intros i Hi.
    apply elem_of_cons in Hi as [->|Hi]; [discriminate|].
    apply list_elem_of_singleton in Hi as ->. discriminate.
  - intros i Hi.
    apply elem_of_cons in Hi as [->|Hi]; [reflexivity|].
    apply list_elem_of_singleton in Hi as ->. reflexivity.
Defined.

(** ** Uptime ranking *)

(** Where some instance has been up for a positive time, the script reports
    the first instance of maximal uptime, with its identifier and that
    uptime. *)
Lemma longest_running_reported (aws : Client) (asg_name : string) (now : Z)
    (i : Instance) :
  let instances := get_asg_instances aws asg_name in
  len instances = sum_ones in_service instances →
  2 ≤ size (availability_zones instances) →
  homogeneity_check instances = Run [] (Ok tt) →
  i ∈ instances → (0 < uptime now i)%Z →
  ∃ m pre post,
    instances = pre ++ m :: post
    ∧ (∀ j, j ∈ pre → (uptime now j < uptime now m)%Z)
    ∧ (∀ j, j ∈ post → (uptime now j ≤ uptime now m)%Z)
    ∧ verify_testcase_a aws asg_name now
      = Run [msg_passed;
             [VStr "Longest running instance ID:"; VStr (InstanceId m)];
             [VStr "Longest running instance uptime:"; VTimedelta (uptime now m)]]
            (Ok tt).
Proof.
  intros instances Hcap Haz Hsame Hi Hpos.
  rewrite verify_a_report by done.
  by apply (uptime_report_some now instances i).
Qed.

(** C4 (uptime ranking, defect of the script).  Two instances pass the three
    checks; both were launched at the reading of the clock, so the first one
    has the maximal uptime, zero.  The script announces a passed test and
    then raises [TypeError]: it kept no instance, because no uptime exceeded
    the zero duration the loop starts from. *)
Theorem zero_uptime_fleet_not_ranked :
  get_asg_instances fresh_client "asg"
  = [mk_instance "i-a" "us-east-1a" "x" 100; mk_instance "i-b" "us-east-1b" "x" 100]
  ∧ uptime 100 (mk_instance "i-a" "us-east-1a" "x" 100) = 0%Z
  ∧ uptime 100 (mk_instance "i-b" "us-east-1b" "x" 100) = 0%Z
  ∧ homogeneity_check (get_asg_instances fresh_client "asg") = Run [] (Ok tt)
  ∧ verify_testcase_a fresh_client "asg" 100 = Run [msg_passed] (Raise TypeError).
Proof. repeat split; vm_compute; reflexivity. Qed.

(** C10 (what the pass branch takes for granted).  The loop starts from the
    zero duration and no instance, and a turn changes the pair only for an
    uptime above the duration kept so far.  So, on a snapshot that passes
    the three checks, the run raises [TypeError] after the pass line when no
    uptime is positive, and ends normally when one is. *)
Theorem longest_running_needs_positive_uptime (aws : Client) (asg_name : string)
    (now : Z) :
  let instances := get_asg_instances aws asg_name in
  len instances = sum_ones in_service instances →
  2 ≤ size (availability_zones instances) →
  homogeneity_check instances = Run [] (Ok tt) →
  uptime_loop now [] = (0%Z, None)
  ∧ (∀ acc i, (uptime now i ≤ acc.1)%Z → uptime_step now acc i = acc)
  ∧ (∀ acc i, (acc.1 < uptime now i)%Z →
       uptime_step now acc i = (uptime now i, Some i))
  ∧ ((∀ i, i ∈ instances → (uptime now i ≤ 0)%Z) →
       verify_testcase_a aws asg_name now = Run [msg_passed] (Raise TypeError))
  ∧ ((∃ i, i ∈ instances ∧ (0 < uptime now i)%Z) →
       outcome (verify_testcase_a aws asg_name now) = Ok tt).
Proof.
  intros instances Hcap Haz Hsame.
  split; [done|]. split; [|split; [|split]].
  - intros acc i Hle. unfold uptime_step. fold (uptime now i).
    by rewrite bool_decide_eq_false_2 by lia.
  - intros acc i Hlt. unfold uptime_step. fold (uptime now i).
    by rewrite bool_decide_eq_true_2 by lia.
  - intros Hle. rewrite verify_a_report by done. by apply uptime_report_none.
  - intros (i & Hi & Hpos).
    destruct (longest_running_reported aws asg_name now i Hcap Haz Hsame Hi Hpos)
      as (m & pre & post & _ & _ & _ & ->).
    done.
Qed.

Lemma longest_running_needs_positive_uptime_witness :
  (∀ i, i ∈ get_asg_instances fresh_client "asg" → (uptime 100 i ≤ 0)%Z)
  ∧ verify_testcase_a fresh_client "asg" 100 = Run [msg_passed] (Raise TypeError).
Proof.
  assert (∀ i, i ∈ get_asg_instances fresh_client "asg" → (uptime 100 i ≤ 0)%Z)
    as Hle.
  { intros i Hi.
    apply elem_of_cons in Hi as [->|Hi]; [by vm_compute|].
    apply list_elem_of_singleton in Hi as ->. by vm_compute. }
  split; [exact Hle|].
  apply (longest_running_needs_positive_uptime fresh_client "asg" 100).
  - vm_compute. reflexivity.
  - vm_compute. lia.
  - vm_compute. reflexivity.
  - exact Hle.
Defined.

(** ** The empty snapshot *)

(** C5 (empty snapshot, defect of the script).  The ASG is configured for
    three instances and has none.  The in-service count 0 is compared with
    the length 0 of the snapshot, not with the desired capacity 3, so there
    is no capacity mismatch; the run ends on the failed zone check, as it
    does for a desired capacity of 0.  The ranking and its report, had they
    been reached with no instance, keep none and raise [TypeError] after the
    pass line. *)
Theorem empty_snapshot_misses_capacity_mismatch :
  DesiredCapacity
    <$> (AutoScalingGroups (describe_auto_scaling_groups empty_client ["asg"])
         ≫= head)
  = Some 3%Z
  ∧ get_asg_instances empty_client "asg" = []
  ∧ sum_ones in_service (get_asg_instances empty_client "asg") = 0%Z
  ∧ verify_testcase_a empty_client "asg" 100 = Run [msg_az_spread] (Ok tt)
  ∧ verify_testcase_a (fixed_client 0 [] [] []) "asg" 100
    = Run [msg_az_spread] (Ok tt)
  ∧ uptime_loop 100 (get_asg_instances empty_client "asg") = (0%Z, None)
  ∧ uptime_report 100 (get_asg_instances empty_client "asg")
    = Run [msg_passed] (Raise TypeError).
Proof. repeat split; vm_compute; reflexivity. Qed.

(** ** Scheduled actions *)

(** C6, as stated, fails on the script: the elapsed time is not reported
    exactly.  One action is due at 10 s; read at 5.5 s and at 6 s the clock
    gives two different elapsed times and the same report, the text of four
    seconds, where the text of the first duration has a fraction. *)
Lemma elapsed_report_floors_to_second :
  (10000000 - 5500000 ≠ 10000000 - 6000000)%Z
  ∧ verify_testcase_b one_action_client "asg" 5500000 0
    = verify_testcase_b one_action_client "asg" 6000000 0
  ∧ stdout (verify_testcase_b one_action_client "asg" 5500000 0) !! 1
    = Some [VStr "Elapsed time from current time:"; VStr "0:00:04"]
  ∧ timedelta_str (10000000 - 5500000) = "0:00:04.500000".
Proof. split; [done|]. repeat split; vm_compute; reflexivity. Qed.

(** C6 (schedule analyzer, amended).  Without scheduled actions the second
    test prints that there are none.  Otherwise it prints the start time of
    an action of the list whose start time is the least of all, past or to
    come, and the text of the duration [start - now] rounded down to the
    second: the days when they are not zero, then [H:MM:SS]; on a single
    action this is the start time of that action.  The two counts follow in
    both cases. *)
Theorem schedule_analyzer_text (aws : Client) (asg_name : string)
    (now today : Z) :
  let actions :=
    ScheduledUpdateGroupActions (describe_scheduled_actions aws asg_name) in
  let activities :=
    Activities
      (describe_scaling_activities aws asg_name
         (today - today `mod` day_us) (today - today `mod` day_us + day_us)) in
  let counts :=
    [[VStr "Launched instances count today:"; VInt (activity_counts activities).1];
     [VStr "Terminated instances count today:"; VInt (activity_counts activities).2]] in
  match actions with
  | [] =>
      verify_testcase_b aws asg_name now today = Run (msg_no_actions :: counts) (Ok tt)
  | first :: others =>
      ∃ a, a ∈ actions
        ∧ (∀ b, b ∈ actions → (StartTime a ≤ StartTime b)%Z)
        ∧ (others = [] → a = first)
        ∧ verify_testcase_b aws asg_name now today
          = Run ([VStr "Next scheduled action start time:"; VDatetime (StartTime a)]
                 :: [VStr "Elapsed time from current time:";
                     VStr (whole_seconds_text ((StartTime a - now) `div` 1000000))]
                 :: counts)
                (Ok tt)
  end.
Proof.
  intros actions activities counts.
  rewrite verify_b_run, activity_report_run. fold actions activities counts.
  destruct actions as [|first others]; [done|].
  exists (min_by StartTime first others).
  split; [apply min_by_elem|].
  split; [apply min_by_le|].
  split; [by intros ->|].
  by rewrite schedule_report_cons, elapsed_text_whole_seconds.
Qed.

Lemma schedule_analyzer_text_witness :
  ∃ a, a ∈ [ {| ScheduledActionName := "scale-out"; StartTime := 10000000 |} ]
    ∧ (∀ b, b ∈ [ {| ScheduledActionName := "scale-out"; StartTime := 10000000 |} ] →
         (StartTime a ≤ StartTime b)%Z)
    ∧ ([] = @nil ScheduledAction →
         a = {| ScheduledActionName := "scale-out"; StartTime := 10000000 |})
    ∧ verify_testcase_b one_action_client "asg" 5500000 0
      = Run [[VStr "Next scheduled action start time:"; VDatetime (StartTime a)];
             [VStr "Elapsed time from current time:";
              VStr (whole_seconds_text ((StartTime a - 5500000) `div` 1000000))];
             [VStr "Launched instances count today:"; VInt 0];
             [VStr "Terminated instances count today:"; VInt 0]]
            (Ok tt).
Proof. exact (schedule_analyzer_text one_action_client "asg" 5500000 0). Defined.

(** An action half a second in the past: the duration is negative, and its
    text is the one Python gives, days first. *)
Example schedule_report_past_action :
  verify_testcase_b healthy_client "asg" 3700500000 100
  = Run [[VStr "Next scheduled action start time:"; VDatetime 3700000000];
         [VStr "Elapsed time from current time:"; VStr "-1 day, 23:59:59"];
         [VStr "Launched instances count today:"; VInt 1];
         [VStr "Terminated instances count today:"; VInt 1]]
        (Ok tt).
Proof. vm_compute. reflexivity. Qed.

(** ** Activities of the day *)

(** C7 (activity counter).  The launched count is the number of activities
    that succeeded and whose description begins with the launch prefix, the
    terminated count the number of those that succeeded and whose
    description begins with the terminate prefix.  An activity that is
    neither changes no count, none is both, both counts are printed whatever
    the activities, and the three activities of the specification give
    (1, 1). *)
Theorem activity_counter_predicates :
  (∀ activities,
     number_of launched activities (activity_counts activities).1
     ∧ number_of terminated activities (activity_counts activities).2)
  ∧ (∀ before a after,
       ¬ launched a → ¬ terminated a →
       activity_counts (before ++ a :: after) = activity_counts (before ++ after))
  ∧ (∀ a, ¬ (launched a ∧ terminated a))
  ∧ (∀ aws asg_name now today, ∃ schedule activities,
       verify_testcase_b aws asg_name now today
       = Run (schedule
              ++ [[VStr "Launched instances count today:";
                   VInt (activity_counts activities).1];
                  [VStr "Terminated instances count today:";
                   VInt (activity_counts activities).2]])
             (Ok tt))
  ∧ activity_counts spec_activities = (1%Z, 1%Z).
Proof.
  split; [|split; [|split; [|split]]].
  - intros activities. split; apply sum_ones_number_of;
      [apply is_launched_spec|apply is_terminated_spec].
  - intros before a after Hl Ht. unfold activity_counts.
    rewrite !sum_ones_app, !sum_ones_cons.
    destruct (is_launched a) eqn:El; [by apply is_launched_spec in El|].
    destruct (is_terminated a) eqn:Et; [by apply is_terminated_spec in Et|].
    done.
  - apply launched_not_terminated.
  - intros aws asg_name now today. eexists _, _.
    rewrite verify_b_run, activity_report_run. reflexivity.
  - vm_compute. reflexivity.
Qed.

Lemma activity_counter_predicates_witness :
  activity_counts
    ([ {| StatusCode := "Successful"; Description := "Launching a new EC2 instance i-1" |} ]
     ++ {| StatusCode := "Failed"; Description := "Launching a new EC2 instance i-3" |}
     :: [ {| StatusCode := "Successful"; Description := "Terminating EC2 instance i-2" |} ])
  = (1%Z, 1%Z).
Proof.
  rewrite (proj1 (proj2 activity_counter_predicates)).
  - vm_compute. reflexivity.
  - intros [Hs _]. discriminate Hs.
  - intros [Hs _]. discriminate Hs.
Defined.

(** C8 (activity counter, algebra).  No activity gives (0, 0), and the two
    counts do not depend on the order of the activities. *)
Theorem activity_counts_permutation :
  activity_counts [] = (0%Z, 0%Z)
  ∧ ∀ activities activities',
      activities ≡ₚ activities' →
      activity_counts activities = activity_counts activities'.
Proof.
  split; [done|]. intros activities activities' Hperm. unfold activity_counts.
  by rewrite (sum_ones_perm is_launched _ _ Hperm),
             (sum_ones_perm is_terminated _ _ Hperm).
Qed.

Lemma activity_counts_permutation_witness :
  spec_activities ≡ₚ reverse spec_activities
  ∧ activity_counts spec_activities = activity_counts (reverse spec_activities).
Proof.
  assert (spec_activities ≡ₚ reverse spec_activities) as Hperm
    by (symmetry; apply reverse_Permutation).
  split; [exact Hperm|].
  exact (proj2 activity_counts_permutation _ _ Hperm).
Defined.

(** ** The two tests in a row *)

(** C9 (independence of the analyzers, defect of the script).  On the fleet
    launched at the reading of the clock the first test raises after its
    pass line, and [main] ends there: nothing of the second test is printed,
    although run by itself on the same data it reports a scheduled action
    and the two counts. *)
Theorem raised_report_hides_second_test :
  main fresh_client "asg" 100 100 100 = Run [msg_passed] (Raise TypeError)
  ∧ verify_testcase_b fresh_client "asg" 100 100
    = Run [[VStr "Next scheduled action start time:"; VDatetime 3700000000];
           [VStr "Elapsed time from current time:"; VStr "1:01:39"];
           [VStr "Launched instances count today:"; VInt 1];
           [VStr "Terminated instances count today:"; VInt 1]]
          (Ok tt).
Proof. split; vm_compute; reflexivity. Qed.

(** * Further properties of the script *)

(** ** The comparison loop stops at the first offender *)

Section first_offender.
Context (security_group image_id vpc_id : string).

Lemma homogeneity_body_no_group (i : Instance) :
  SecurityGroups i = [] →
  homogeneity_body security_group image_id vpc_id i = Run [] (Raise IndexError).
Proof. unfold homogeneity_body. by intros ->. Qed.

Lemma for_each_skip_same (pre rest : list Instance) :
  (∀ i, i ∈ pre → config_of i = (Some security_group, image_id, vpc_id)) →
  for_each (pre ++ rest) (homogeneity_body security_group image_id vpc_id)
  = for_each rest (homogeneity_body security_group image_id vpc_id).
Proof.
  induction pre as [|x pre IH]; intros Hpre; [done|]. simpl.
  rewrite homogeneity_body_same by (apply Hpre; by left).
  rewrite bind_ok, app_nil_l, run_eta. apply IH.
  intros i Hi. apply Hpre. by right.
Qed.

Lemma for_each_outcomes (xs : list Instance) :
  for_each xs (homogeneity_body security_group image_id vpc_id) = Run [] (Ok tt)
  ∨ for_each xs (homogeneity_body security_group image_id vpc_id)
    = Run [msg_drift] Return
  ∨ for_each xs (homogeneity_body security_group image_id vpc_id)
    = Run [] (Raise IndexError).
Proof.
  induction xs as [|x xs IH]; [by left|]. simpl.
  destruct (SecurityGroups x) as [|sg sgs] eqn:Hsg.
  { right. right. by rewrite homogeneity_body_no_group. }
  destruct (decide (config_of x = (Some security_group, image_id, vpc_id)))
    as [Hx|Hx].
  - rewrite homogeneity_body_same by done.
    by rewrite bind_ok, app_nil_l, run_eta.
  - right. left. rewrite homogeneity_body_diff; [done| |done]. by rewrite Hsg.
Qed.
End first_offender.

Lemma homogeneity_check_outcomes (instances : list Instance) :
  homogeneity_check instances = Run [] (Ok tt)
  ∨ homogeneity_check instances = Run [msg_drift] Return
  ∨ homogeneity_check instances = Run [] (Raise IndexError).
Proof.
  destruct instances as [|first rest]; [by right; right|].
  destruct (SecurityGroups first) as [|sg0 sgs] eqn:Hfirst.
  - right. right. unfold homogeneity_check.
    change (index0 (first :: rest)) with (Run [] (Ok first)).
    rewrite bind_ok. cbv beta. by rewrite Hfirst.
  - rewrite (homogeneity_check_cons _ _ _ _ Hfirst). apply for_each_outcomes.
Qed.

(** ** Every way [verify_testcase_a] can end *)

Lemma verify_a_after_checks (aws : Client) (asg_name : string) (now : Z) :
  let instances := get_asg_instances aws asg_name in
  let run := verify_testcase_a aws asg_name now in
  len instances = sum_ones in_service instances →
  2 ≤ size (availability_zones instances) →
  run = Run [msg_drift] (Ok tt)
  ∨ run = Run [] (Raise IndexError)
  ∨ run = Run [msg_passed] (Raise TypeError)
  ∨ ∃ m, m ∈ instances ∧ (0 < uptime now m)%Z
      ∧ (∀ i, i ∈ instances → (uptime now i ≤ uptime now m)%Z)
      ∧ run
        = Run [msg_passed;
               [VStr "Longest running instance ID:"; VStr (InstanceId m)];
               [VStr "Longest running instance uptime:";
                VTimedelta (uptime now m)]]
              (Ok tt).
Proof.
  intros instances run Hcap Haz. subst run.
  destruct (homogeneity_check_outcomes instances) as [Hok|[Hdrift|Hraise]].
  - right. right. rewrite verify_a_report by done. fold instances.
    unfold uptime_report. pose proof (uptime_loop_spec now instances) as Hloop.
    destruct (uptime_loop now instances) as [u [m|]].
    + right. destruct Hloop as (-> & Hpos & pre & post & Hxs & Hpre & Hpost).
      exists m. split; [rewrite Hxs; apply elem_of_app; right; by left|].
      split; [done|]. split; [|done].
      intros i Hi. rewrite Hxs in Hi.
      apply elem_of_app in Hi as [Hi|Hi]; [apply Hpre in Hi; lia|].
      apply elem_of_cons in Hi as [->|Hi]; [lia|by apply Hpost].
    + by left.
  - left. by apply verify_a_drift.
  - right. left. rewrite verify_a_checks by done. fold instances.
    by rewrite Hraise, bind_raise.
Qed.

(** The procedure ends in one of six ways: one of the three failure lines,
    [IndexError] before anything is printed, [TypeError] after the pass
    line, or the pass line followed by the identifier and the uptime of an
    instance whose uptime is positive and the greatest of all. *)
Theorem verify_a_outcomes (aws : Client) (asg_name : string) (now : Z) :
  let instances := get_asg_instances aws asg_name in
  let run := verify_testcase_a aws asg_name now in
  run = Run [msg_capacity] (Ok tt)
  ∨ run = Run [msg_az_spread] (Ok tt)
  ∨ run = Run [msg_drift] (Ok tt)
  ∨ run = Run [] (Raise IndexError)
  ∨ run = Run [msg_passed] (Raise TypeError)
  ∨ ∃ m, m ∈ instances ∧ (0 < uptime now m)%Z
      ∧ (∀ i, i ∈ instances → (uptime now i ≤ uptime now m)%Z)
      ∧ run
        = Run [msg_passed;
               [VStr "Longest running instance ID:"; VStr (InstanceId m)];
               [VStr "Longest running instance uptime:";
                VTimedelta (uptime now m)]]
              (Ok tt).
Proof.
  intros instances run. subst run instances.
  set (instances := get_asg_instances aws asg_name).
  destruct (decide (len instances = sum_ones in_service instances)) as [Hcap|Hcap];
    [|left; by apply verify_a_capacity].
  destruct (decide (size (availability_zones instances) < 2)) as [Haz|Haz];
    [right; left; by apply verify_a_az_spread|].
  do 2 right. apply verify_a_after_checks; [done|fold instances; lia].
Qed.

(** ** What the first two checks amount to *)

Lemma sum_ones_all {A} (cond : A → bool) (xs : list A) :
  len xs = sum_ones cond xs ↔ ∀ x, x ∈ xs → cond x = true.
Proof.
  unfold len. induction xs as [|x xs IH]; simpl length.
  - rewrite sum_ones_nil. split; [|done]. intros _ x Hx. by apply elem_of_nil in Hx.
  - rewrite sum_ones_cons. pose proof (sum_ones_bounds cond xs) as Hb. unfold len in Hb.
    destruct (cond x) eqn:Hx.
    + split.
      * intros Heq y [->|Hy]%elem_of_cons; [done|]. apply IH; [lia|done].
      * intros Hall. assert (Z.of_nat (length xs) = sum_ones cond xs); [|lia].
        apply IH. intros y Hy. apply Hall. by right.
    + split; [lia|]. intros Hall. rewrite Hall in Hx by (by left). done.
Qed.

Lemma az_size_small (instances : list Instance) :
  size (availability_zones instances) < 2
  ↔ ∀ i j, i ∈ instances → j ∈ instances →
      AvailabilityZone i = AvailabilityZone j.
Proof.
  unfold availability_zones. split.
  - intros Hsize i j Hi Hj.
    destruct (decide (AvailabilityZone i = AvailabilityZone j)) as [|Hne]; [done|].
    assert ({[AvailabilityZone i]} ∪ {[AvailabilityZone j]}
            ⊆ (list_to_set (AvailabilityZone <$> instances) : gset string)) as Hsub.
    { intros z [Hz|Hz]%elem_of_union; apply elem_of_singleton in Hz as ->;
        apply elem_of_list_to_set, list_elem_of_fmap; eauto. }
    apply subseteq_size in Hsub.
    rewrite size_union, !size_singleton in Hsub; [lia|].
    by apply disjoint_singleton_l, not_elem_of_singleton.
  - intros Hsame. destruct instances as [|x xs].
    + change (size (∅ : gset string) < 2). rewrite size_empty. lia.
    + assert ((list_to_set (AvailabilityZone <$> x :: xs) : gset string)
              ⊆ {[AvailabilityZone x]}) as Hsub.
      { intros z Hz. apply elem_of_list_to_set, list_elem_of_fmap in Hz
          as (j & -> & Hj).
        apply elem_of_singleton. apply Hsame; [done|by left]. }
      apply subseteq_size in Hsub. rewrite size_singleton in Hsub. lia.
Qed.

(** The capacity check fails exactly when some instance of the snapshot is
    not in service; the running count never exceeds the count it is compared
    with. *)
Theorem capacity_failure_iff (aws : Client) (asg_name : string) (now : Z) :
  let instances := get_asg_instances aws asg_name in
  (sum_ones in_service instances ≤ len instances)%Z
  ∧ (verify_testcase_a aws asg_name now = Run [msg_capacity] (Ok tt)
     ↔ ∃ i, i ∈ instances ∧ LifecycleState i ≠ "InService").
Proof.
  intros instances. split; [apply sum_ones_bounds|].
  assert (len instances ≠ sum_ones in_service instances
          ↔ ∃ i, i ∈ instances ∧ LifecycleState i ≠ "InService") as Hiff.
  { rewrite sum_ones_all. split.
    - intros Hnot.
      destruct (decide (Exists (λ i, LifecycleState i ≠ "InService") instances))
        as [HE|HE].
      + apply Exists_exists in HE. done.
      + destruct Hnot. intros i Hi. apply bool_decide_eq_true.
        destruct (decide (LifecycleState i = "InService")) as [|Hne]; [done|].
        destruct HE. apply Exists_exists. eauto.
    - intros (i & Hi & Hne) Hall. apply Hall in Hi.
      by apply bool_decide_eq_true in Hi. }
  rewrite <- Hiff. split; [|apply verify_a_capacity].
  intros Hrun Hcap.
  destruct (decide (size (availability_zones instances) < 2)) as [Haz|Haz].
  - by rewrite verify_a_az_spread in Hrun.
  - destruct (verify_a_after_checks aws asg_name now Hcap)
      as [H|[H|[H|(m & _ & _ & _ & H)]]];
      [fold instances; lia|..]; rewrite H in Hrun; discriminate.
Qed.

(** The zone check fails exactly when every instance is in service and no
    two instances are in different zones. *)
Theorem az_spread_failure_iff (aws : Client) (asg_name : string) (now : Z) :
  let instances := get_asg_instances aws asg_name in
  verify_testcase_a aws asg_name now = Run [msg_az_spread] (Ok tt)
  ↔ (∀ i, i ∈ instances → LifecycleState i = "InService")
    ∧ (∀ i j, i ∈ instances → j ∈ instances →
         AvailabilityZone i = AvailabilityZone j).
Proof.
  intros instances.
  assert (len instances = sum_ones in_service instances
          ↔ ∀ i, i ∈ instances → LifecycleState i = "InService") as Hcap_iff.
  { rewrite sum_ones_all. unfold in_service.
    split; intros H i Hi; [eapply bool_decide_eq_true|apply bool_decide_eq_true];
      by apply H. }
  rewrite <- Hcap_iff, <- az_size_small. split.
  - intros Hrun.
    destruct (decide (len instances = sum_ones in_service instances)) as [Hcap|Hcap];
      [|rewrite verify_a_capacity in Hrun by done; discriminate].
    split; [done|].
    destruct (decide (size (availability_zones instances) < 2)) as [Haz|Haz]; [done|].
    destruct (verify_a_after_checks aws asg_name now Hcap)
      as [H|[H|[H|(m & _ & _ & _ & H)]]];
      [fold instances; lia|..]; rewrite H in Hrun; discriminate.
  - intros [Hcap Haz]. by apply verify_a_az_spread.
Qed.

(** ** A group that is missing *)

(** When the answer of the API names no group, an empty list of groups, or a
    first group without instances, the procedure reports a failed zone
    check. *)
Theorem missing_group_reported_as_az_failure (aws : Client) (asg_name : string)
    (now : Z) :
  (AutoScalingGroups (describe_auto_scaling_groups aws [asg_name]) ≫= head)
    ≫= Instances = None →
  get_asg_instances aws asg_name = []
  ∧ verify_testcase_a aws asg_name now = Run [msg_az_spread] (Ok tt).
Proof.
  intros Hnone.
  assert (get_asg_instances aws asg_name = []) as Hempty.
  { unfold get_asg_instances.
    destruct (AutoScalingGroups _) as [[|asg asgs]|]; try done.
    simpl in Hnone. by rewrite Hnone. }
  split; [done|].
  apply az_spread_needs_two_instances; rewrite Hempty; [done|simpl; lia].
Qed.

Lemma missing_group_reported_as_az_failure_witness :
  let aws :=
    {| describe_auto_scaling_groups := λ _, {| AutoScalingGroups := Some [] |};
       describe_scheduled_actions := λ _, {| ScheduledUpdateGroupActions := [] |};
       describe_scaling_activities := λ _ _ _, {| Activities := [] |} |} in
  verify_testcase_a aws "no-such-group" 100 = Run [msg_az_spread] (Ok tt).
Proof.
  intros aws.
  apply (missing_group_reported_as_az_failure aws "no-such-group" 100).
  reflexivity.
Defined.

(** ** A fleet that passes *)

(** Every instance in service, two instances in different zones, every
    instance configured as the first one, and some instance up for a
    positive time: the procedure ends normally on the pass line and the
    identifier and uptime of the first instance of greatest uptime. *)
Theorem healthy_fleet_passes (aws : Client) (asg_name : string) (now : Z)
    (first : Instance) (rest : list Instance) (a b up : Instance) :
  get_asg_instances aws asg_name = first :: rest →
  (∀ i, i ∈ first :: rest → LifecycleState i = "InService") →
  a ∈ first :: rest → b ∈ first :: rest →
  AvailabilityZone a ≠ AvailabilityZone b →
  SecurityGroups first ≠ [] →
  (∀ i, i ∈ first :: rest → config_of i = config_of first) →
  up ∈ first :: rest → (0 < uptime now up)%Z →
  ∃ m pre post,
    first :: rest = pre ++ m :: post
    ∧ (∀ j, j ∈ pre → (uptime now j < uptime now m)%Z)
    ∧ (∀ j, j ∈ post → (uptime now j ≤ uptime now m)%Z)
    ∧ verify_testcase_a aws asg_name now
      = Run [msg_passed;
             [VStr "Longest running instance ID:"; VStr (InstanceId m)];
             [VStr "Longest running instance uptime:"; VTimedelta (uptime now m)]]
            (Ok tt).
Proof.
  intros Hsnap Hstate Ha Hb Hab Hsg Hsame Hup Hpos.
  assert (len (first :: rest) = sum_ones in_service (first :: rest)) as Hcap.
  { apply sum_ones_all. intros i Hi. apply bool_decide_eq_true. by apply Hstate. }
  assert (2 ≤ size (availability_zones (first :: rest))) as Haz.
  { destruct (decide (size (availability_zones (first :: rest)) < 2)) as [Hlt|]; [|lia].
    destruct Hab. by apply (proj1 (az_size_small (first :: rest))). }
  rewrite verify_a_report; rewrite Hsnap; try done.
  - by apply (uptime_report_some now (first :: rest) up).
  - by apply homogeneity_check_pass.
Qed.

Lemma healthy_fleet_passes_witness :
  ∃ m pre post,
    [mk_instance "i-a" "us-east-1a" "x" 10; mk_instance "i-b" "us-east-1b" "x" 5]
    = pre ++ m :: post
    ∧ (∀ j, j ∈ pre → (uptime 100 j < uptime 100 m)%Z)
    ∧ (∀ j, j ∈ post → (uptime 100 j ≤ uptime 100 m)%Z)
    ∧ verify_testcase_a healthy_client "asg" 100
      = Run [msg_passed;
             [VStr "Longest running instance ID:"; VStr (InstanceId m)];
             [VStr "Longest running instance uptime:"; VTimedelta (uptime 100 m)]]
            (Ok tt).
Proof.
  pose (ia := mk_instance "i-a" "us-east-1a" "x" 10).
  pose (ib := mk_instance "i-b" "us-east-1b" "x" 5).
  assert (∀ P : Instance → Prop, P ia → P ib → ∀ i, i ∈ [ia; ib] → P i) as Hboth.
  { intros P Pa Pb i Hi. apply elem_of_cons in Hi as [->|Hi]; [done|].
    by apply list_elem_of_singleton in Hi as ->. }
  apply (healthy_fleet_passes healthy_client "asg" 100 ia [ib] ia ib ia).
  - reflexivity.
  - apply Hboth; reflexivity.
  - by left.
  - right. by left.
  - discriminate.
  - discriminate.
  - apply Hboth; reflexivity.
  - by left.
  - by vm_compute.
Defined.

(** ** Instances without a security group *)

(** The loop looks instances up in order.  An instance without a security
    group met while all before it agree with the first one makes the
    procedure raise [IndexError] with nothing printed; an instance that has
    one and differs from the first, met in the same position, gives the
    drift failure, whatever comes after it. *)
Theorem first_offender_decides (aws : Client) (asg_name : string) (now : Z)
    (first : Instance) (rest pre post : list Instance) (x : Instance) :
  get_asg_instances aws asg_name = first :: rest →
  len (first :: rest) = sum_ones in_service (first :: rest) →
  2 ≤ size (availability_zones (first :: rest)) →
  first :: rest = pre ++ x :: post →
  (∀ i, i ∈ pre → config_of i = config_of first) →
  (SecurityGroups x = [] →
     verify_testcase_a aws asg_name now = Run [] (Raise IndexError))
  ∧ (SecurityGroups first ≠ [] → SecurityGroups x ≠ [] →
     config_of x ≠ config_of first →
     verify_testcase_a aws asg_name now = Run [msg_drift] (Ok tt)).
Proof.
  intros Hsnap Hcap Haz Hsplit Hpre.
  destruct (SecurityGroups first) as [|sg0 sgs] eqn:Hfirst.
  - split; [|done]. intros _.
    rewrite verify_a_checks; rewrite Hsnap; try done.
    unfold homogeneity_check.
    change (index0 (first :: rest)) with (Run [] (Ok first)).
    rewrite bind_ok. cbv beta. by rewrite Hfirst.
  - assert (config_of first = (Some (GroupId sg0), ImageId first, VpcId first))
      as Hconfig by (unfold config_of; by rewrite Hfirst).
    assert (homogeneity_check (first :: rest)
            = for_each (x :: post)
                (homogeneity_body (GroupId sg0) (ImageId first) (VpcId first)))
      as Hcheck.
    { rewrite (homogeneity_check_cons _ _ _ _ Hfirst), Hsplit.
      rewrite for_each_skip_same; [done|].
      intros i Hi. rewrite <- Hconfig. by apply Hpre. }
    split.
    + intros Hx. rewrite verify_a_checks; rewrite Hsnap; try done.
      rewrite Hcheck. simpl. by rewrite homogeneity_body_no_group.
    + intros _ Hx Hdiff. apply verify_a_drift; rewrite Hsnap; try done.
      rewrite Hcheck. simpl.
      rewrite homogeneity_body_diff; [done..|]. by rewrite <- Hconfig.
Qed.

Lemma first_offender_decides_witness :
  let bare :=
    {| InstanceId := "i-b"; LifecycleState := "InService";
       AvailabilityZone := "us-east-1b"; SecurityGroups := [];
       ImageId := "ami-y"; VpcId := "vpc-y"; LaunchTime := 5 |} in
  let aws := fixed_client 2 [mk_instance "i-a" "us-east-1a" "x" 10; bare] [] [] in
  verify_testcase_a aws "asg" 100 = Run [] (Raise IndexError).
Proof.
  intros bare aws.
  apply (first_offender_decides aws "asg" 100
           (mk_instance "i-a" "us-east-1a" "x" 10) [bare]
           [mk_instance "i-a" "us-east-1a" "x" 10] [] bare).
  - reflexivity.
  - vm_compute. reflexivity.
  - vm_compute. lia.
  - reflexivity.
  - intros i Hi. by apply list_elem_of_singleton in Hi as ->.
  - reflexivity.
Defined.

(** ** Security groups after the first one *)

Lemma alike_body (security_group image_id vpc_id : string) (i j : Instance) :
  alike_up_to_later_groups i j →
  homogeneity_body security_group image_id vpc_id i
  = homogeneity_body security_group image_id vpc_id j.
Proof.
  intros (_ & _ & _ & Hsg & Him & Hvpc & _). unfold homogeneity_body.
  rewrite Him, Hvpc.
  destruct (SecurityGroups i) as [|s ss], (SecurityGroups j) as [|s' ss'];
    simplify_eq/=; done.
Qed.

Lemma alike_for_each (security_group image_id vpc_id : string)
    (xs ys : list Instance) :
  Forall2 alike_up_to_later_groups xs ys →
  for_each xs (homogeneity_body security_group image_id vpc_id)
  = for_each ys (homogeneity_body security_group image_id vpc_id).
Proof.
  induction 1 as [|i j xs ys Hij _ IH]; [done|]. simpl.
  by rewrite (alike_body _ _ _ i j Hij), IH.
Qed.

Lemma alike_homogeneity_check (xs ys : list Instance) :
  Forall2 alike_up_to_later_groups xs ys →
  homogeneity_check xs = homogeneity_check ys.
Proof.
  intros Hall. destruct Hall as [|i j xs ys Hij Hrest]; [done|].
  pose proof Hij as (_ & _ & _ & Hsg & Him & Hvpc & _).
  assert (Forall2 alike_up_to_later_groups (i :: xs) (j :: ys)) as Hall
    by by constructor.
  destruct (SecurityGroups i) as [|s ss] eqn:Hi,
           (SecurityGroups j) as [|s' ss'] eqn:Hj; simplify_eq/=.
  - unfold homogeneity_check.
    change (index0 (i :: xs)) with (Run [] (Ok i)).
    change (index0 (j :: ys)) with (Run [] (Ok j)).
    rewrite !bind_ok. cbv beta. by rewrite Hi, Hj.
  - rewrite (homogeneity_check_cons _ _ _ _ Hi), (homogeneity_check_cons _ _ _ _ Hj).
    rewrite Him, Hvpc. by apply alike_for_each.
Qed.

Lemma alike_uptime_loop (now : Z) (xs ys : list Instance) :
  Forall2 alike_up_to_later_groups xs ys →
  (uptime_loop now xs).1 = (uptime_loop now ys).1
  ∧ option_Forall2 alike_up_to_later_groups
      (uptime_loop now xs).2 (uptime_loop now ys).2.
Proof.
  unfold uptime_loop. intros Hall.
  assert (∀ u o o', option_Forall2 alike_up_to_later_groups o o' →
    (fold_left (uptime_step now) xs (u, o)).1
    = (fold_left (uptime_step now) ys (u, o')).1
    ∧ option_Forall2 alike_up_to_later_groups
        (fold_left (uptime_step now) xs (u, o)).2
        (fold_left (uptime_step now) ys (u, o')).2) as Hgen.
  { induction Hall as [|i j xs ys Hij _ IH]; intros u o o' Ho; [done|]. simpl.
    pose proof Hij as (_ & _ & _ & _ & _ & _ & Hlaunch).
    unfold uptime_step at 2 4 6 8. simpl. rewrite Hlaunch.
    case_bool_decide; apply IH; [by constructor|done]. }
  apply Hgen. constructor.
Qed.

(** Only the first security group of an instance is ever read: two
    snapshots that differ in later security groups alone get the same
    verdict and the same report. *)
Theorem later_security_groups_ignored (aws aws' : Client) (asg_name : string)
    (now : Z) :
  Forall2 alike_up_to_later_groups
    (get_asg_instances aws asg_name) (get_asg_instances aws' asg_name) →
  verify_testcase_a aws asg_name now = verify_testcase_a aws' asg_name now.
Proof.
  intros Hall. unfold verify_testcase_a.
  set (xs := get_asg_instances aws asg_name) in *.
  set (ys := get_asg_instances aws' asg_name) in *.
  assert (len xs = len ys) as ->.
  { unfold len. by rewrite (Forall2_length _ _ _ Hall). }
  assert (sum_ones in_service xs = sum_ones in_service ys) as ->.
  { induction Hall as [|i j xs' ys' Hij _ IH]; [done|].
    rewrite !sum_ones_cons, IH. unfold in_service.
    destruct Hij as (_ & -> & _). done. }
  assert (AvailabilityZone <$> xs = AvailabilityZone <$> ys) as ->.
  { induction Hall as [|i j xs' ys' Hij _ IH]; [done|].
    rewrite !fmap_cons, IH. destruct Hij as (_ & _ & -> & _). done. }
  rewrite (alike_homogeneity_check xs ys Hall).
  assert (uptime_report now xs = uptime_report now ys) as ->; [|done].
  unfold uptime_report. destruct (alike_uptime_loop now xs ys Hall) as [Hu Ho].
  destruct (uptime_loop now xs) as [u o], (uptime_loop now ys) as [u' o'].
  simpl in *. subst u'. destruct Ho as [m m' Hm|]; [|done].
  destruct Hm as (-> & _). done.
Qed.

Lemma later_security_groups_ignored_witness :
  let extra :=
    {| InstanceId := "i-b"; LifecycleState := "InService";
       AvailabilityZone := "us-east-1b";
       SecurityGroups := [ {| GroupId := "sg-x" |}; {| GroupId := "sg-open" |} ];
       ImageId := "ami-x"; VpcId := "vpc-x"; LaunchTime := 5 |} in
  verify_testcase_a healthy_client "asg" 100
  = verify_testcase_a
      (fixed_client 2 [mk_instance "i-a" "us-east-1a" "x" 10; extra] [] [])
      "asg" 100.
Proof.
  intros extra.
  apply (later_security_groups_ignored healthy_client
           (fixed_client 2 [mk_instance "i-a" "us-east-1a" "x" 10; extra] [] [])
           "asg" 100).
  repeat constructor.
Defined.

(** ** The elapsed time as printed *)

Lemma split_dot_head_has_no_dot (s : string) : no_dot (split_dot_head s).
Proof.
  induction s as [|c s IH]; [done|]. simpl. case_bool_decide; [done|]. by split.
Qed.

Lemma schedule_report_elapsed_line (aws : Client) (asg_name : string)
    (now today : Z) (first : ScheduledAction) (others : list ScheduledAction) :
  ScheduledUpdateGroupActions (describe_scheduled_actions aws asg_name)
  = first :: others →
  stdout (verify_testcase_b aws asg_name now today) !! 1
  = Some [VStr "Elapsed time from current time:";
          VStr (split_dot_head
                  (timedelta_str (StartTime (min_by StartTime first others) - now)))].
Proof. intros Hactions. by rewrite verify_b_run, Hactions, schedule_report_cons. Qed.

(** For an action due within the next 24 hours the text has the form
    [H:MM:SS] announced by the comment of line 88; for an action in the past
    it does not: it begins with a minus sign, that of a negative number of
    days. *)
Theorem elapsed_text_shape (aws : Client) (asg_name : string)
    (now today : Z) (first : ScheduledAction) (others : list ScheduledAction) :
  ScheduledUpdateGroupActions (describe_scheduled_actions aws asg_name)
  = first :: others →
  let elapsed := (StartTime (min_by StartTime first others) - now)%Z in
  ∃ text,
    stdout (verify_testcase_b aws asg_name now today) !! 1
    = Some [VStr "Elapsed time from current time:"; VStr text]
    ∧ ((0 ≤ elapsed < day_us)%Z →
         text = pretty (elapsed `div` 3600000000)%Z +:+ ":"
                +:+ zfill 2 ((elapsed `div` 60000000) `mod` 60)%Z +:+ ":"
                +:+ zfill 2 ((elapsed `div` 1000000) `mod` 60)%Z)
    ∧ ((elapsed < 0)%Z → begins_with "-" text).
Proof.
  intros Hactions elapsed. eexists. split; [by apply schedule_report_elapsed_line|].
  fold elapsed. rewrite timedelta_str_whole.
  set (whole := (elapsed - elapsed `mod` 1000000)%Z).
  assert ((whole `mod` day_us) `mod` 1000000 = 0)%Z as Hus.
  { unfold whole, day_us. Z.div_mod_to_equations. lia. }
  split.
  - intros Hrange. unfold timedelta_str. rewrite Hus.
    assert (whole `div` day_us = 0)%Z as ->.
    { unfold whole, day_us in *. Z.div_mod_to_equations. lia. }
    rewrite !(bool_decide_eq_false_2 (0 ≠ 0)%Z) by (intros H; by apply H).
    assert ((whole `mod` day_us) `div` 1000000 = elapsed `div` 1000000)%Z as ->.
    { unfold whole, day_us in *. Z.div_mod_to_equations. lia. }
    assert ((elapsed `div` 1000000) `div` 60 = elapsed `div` 60000000)%Z as ->.
    { rewrite Z.div_div by lia. done. }
    assert ((elapsed `div` 60000000) `div` 60 = elapsed `div` 3600000000)%Z as ->.
    { rewrite Z.div_div by lia. done. }
    done.
  - intros Hneg. unfold timedelta_str. rewrite Hus.
    rewrite (bool_decide_eq_false_2 (0 ≠ 0)%Z) by (intros H; by apply H).
    assert (whole `div` day_us < 0)%Z as Hdays.
    { unfold whole, day_us in *. Z.div_mod_to_equations. lia. }
    rewrite bool_decide_eq_true_2 by lia.
    destruct (whole `div` day_us)%Z as [|p|p] eqn:Hd; [lia..|].
    eexists. change (pretty (Z.neg p)) with ("-" +:+ pretty p).
    rewrite append_cons. reflexivity.
Qed.

Lemma elapsed_text_shape_witness :
  ∃ text,
    stdout (verify_testcase_b healthy_client "asg" 3700500000 100) !! 1
    = Some [VStr "Elapsed time from current time:"; VStr text]
    ∧ begins_with "-" text.
Proof.
  destruct (elapsed_text_shape healthy_client "asg" 3700500000 100
              {| ScheduledActionName := "scale-out"; StartTime := 7300000000 |}
              [ {| ScheduledActionName := "scale-in"; StartTime := 3700000000 |};
                {| ScheduledActionName := "nightly"; StartTime := 3700000000 |} ])
    as (text & Hline & _ & Hneg); [reflexivity|].
  exists text. split; [exact Hline|]. apply Hneg. by vm_compute.
Defined.

(** ** The window of the day *)

(** The activities are asked for over a window of exactly one day that
    begins on a day boundary and contains the reading of
    [datetime.today()].  The last two lines printed carry the number of
    successful launches and the number of successful terminations among the
    activities the API returns for that window. *)
Theorem activity_window_is_today (aws : Client) (asg_name : string)
    (now today : Z) :
  ∃ start_of_day launched_count terminated_count schedule,
    (start_of_day ≤ today < start_of_day + day_us)%Z
    ∧ (start_of_day `mod` day_us = 0)%Z
    ∧ number_of launched
        (Activities
           (describe_scaling_activities aws asg_name
              start_of_day (start_of_day + day_us)))
        launched_count
    ∧ number_of terminated
        (Activities
           (describe_scaling_activities aws asg_name
              start_of_day (start_of_day + day_us)))
        terminated_count
    ∧ 1 ≤ length schedule ≤ 2
    ∧ verify_testcase_b aws asg_name now today
      = Run (schedule
             ++ [[VStr "Launched instances count today:"; VInt launched_count];
                 [VStr "Terminated instances count today:"; VInt terminated_count]])
            (Ok tt).
Proof.
  set (start := (today - today `mod` day_us)%Z).
  set (activities :=
         Activities (describe_scaling_activities aws asg_name start (start + day_us))).
  exists start, (activity_counts activities).1, (activity_counts activities).2,
    (stdout (schedule_report
               (ScheduledUpdateGroupActions
                  (describe_scheduled_actions aws asg_name)) now)).
  split; [unfold start, day_us; Z.div_mod_to_equations; lia|].
  split; [unfold start, day_us; Z.div_mod_to_equations; lia|].
  split; [apply sum_ones_number_of, is_launched_spec|].
  split; [apply sum_ones_number_of, is_terminated_spec|].
  split.
  - destruct (ScheduledUpdateGroupActions _) as [|first others];
      [rewrite schedule_report_nil|rewrite schedule_report_cons]; simpl; lia.
  - by rewrite verify_b_run, activity_report_run.
Qed.

(** ** The two counts *)

(** Both counts are non-negative and together they do not exceed the number
    of successful activities, hence not the number of activities. *)
Theorem activity_counts_bounded (activities : list Activity) :
  let successful :=
    sum_ones (λ a, bool_decide (StatusCode a = "Successful")) activities in
  (0 ≤ (activity_counts activities).1)%Z
  ∧ (0 ≤ (activity_counts activities).2)%Z
  ∧ ((activity_counts activities).1 + (activity_counts activities).2
     ≤ successful)%Z
  ∧ (successful ≤ len activities)%Z.
Proof.
  intros successful. unfold activity_counts. simpl.
  split; [apply sum_ones_bounds|]. split; [apply sum_ones_bounds|].
  split; [|apply sum_ones_bounds].
  subst successful. induction activities as [|a activities IH]; [done|].
  rewrite !sum_ones_cons.
  destruct (is_launched a) eqn:El, (is_terminated a) eqn:Et.
  - destruct (launched_not_terminated a).
    split; [by apply is_launched_spec|by apply is_terminated_spec].
  - apply is_launched_spec in El as [-> _]. simpl. lia.
  - apply is_terminated_spec in Et as [-> _]. simpl. lia.
  - case_bool_decide; lia.
Qed.

(** Counting two lists of activities put end to end adds the counts of each. *)
Theorem activity_counts_app (xs ys : list Activity) :
  activity_counts (xs ++ ys)
  = (((activity_counts xs).1 + (activity_counts ys).1)%Z,
     ((activity_counts xs).2 + (activity_counts ys).2)%Z).
Proof. unfold activity_counts. simpl. by rewrite !sum_ones_app. Qed.
